(** * The queue controller of volcano: work items, retries and start-up

    A shallow embedding of [pkg/controllers/queue/queue_controller.go].
    The controller's methods are written in a small state monad over the
    controller's mutable world (its two work queues, the command store of the
    cluster API, the queue lister's cache, the clock) which also keeps the
    trace of the calls a method makes.  A Go [error] value that may be [nil]
    is an [option error]; a nil dereference is the [Panic] outcome; a call that
    waits for another goroutine is the [Blocked] outcome. *)

From stdpp Require Import base option list gmap strings.

Local Open Scope string_scope.

(** ** Errors: [error], [fmt.Errorf], [apierrors.IsNotFound] *)

Module apierrors.

(** [metav1.StatusReason]: the reasons the code tells apart, and some of the
    others. *)
Inductive StatusReason :=
| StatusReasonUnknown
| StatusReasonNotFound
| StatusReasonAlreadyExists
| StatusReasonConflict
| StatusReasonTimeout
| StatusReasonInternalError.

End apierrors.

(** The dynamic types of [error] the controller meets: the API machinery's
    [*StatusError] and the plain error made by [fmt.Errorf]. *)
Inductive error :=
| StatusError (reason : apierrors.StatusReason) (message : string)
| errorString (s : string).

(** [err.Error()], which is also how [%v] prints an error. *)
Definition Error (err : error) : string :=
  match err with
  | StatusError _ message => message
  | errorString s => s
  end.

(** [apierrors.IsNotFound]: the reason of a status error is NotFound; any
    other error has the reason Unknown. *)
Definition IsNotFound (err : error) : bool :=
  match err with
  | StatusError apierrors.StatusReasonNotFound _ => true
  | _ => false
  end.

(** [%q] of a string without special characters. *)
Definition quoted (s : string) : string :=
  String (Ascii.ascii_of_nat 34) (s ++ String (Ascii.ascii_of_nat 34) EmptyString).

(** [fmt.Errorf] with its format already applied. *)
Definition Errorf (message : string) : error := errorString message.

(** [strings.Contains]. *)
Fixpoint Contains (s substr : string) : bool :=
  String.prefix substr s ||
  match s with
  | EmptyString => false
  | String _ s' => Contains s' substr
  end.

(** ** The resources *)

(** [schedulingv1alpha2.QueueAction], [QueueEvent] and [QueueState] are string
    types. *)
Definition QueueAction := string.
Definition QueueEvent := string.
Definition QueueState := string.

(** Modelled from the spec: the constant [QueueCommandIssuedEvent] of the
    scheduling API package, which is not under src/; the spec names the event
    CommandIssued. *)
Definition QueueCommandIssuedEvent : QueueEvent := "CommandIssued".

(** [v1.EventTypeWarning] of the core API. *)
Definition EventTypeWarning : string := "Warning".

Module QueueRequest.
Record t := mk { Name : string; Event : QueueEvent; Action : QueueAction }.
End QueueRequest.

Module OwnerReference.
Record t := mk { APIVersion : string; Kind : string; Name : string }.
End OwnerReference.

Module Command.
(** [TargetObject] is a [*metav1.OwnerReference]: it may be nil. *)
Record t := mk {
  Namespace : string;
  Name : string;
  Action : string;
  TargetObject : option OwnerReference.t
}.
End Command.

Module Queue.
(** [Status_State] is the field [Status.State]. *)
Record t := mk { Name : string; Status_State : QueueState }.
End Queue.

(** A non-nil pointer: the address gives the identity, the value is what it
    points to (requests and commands are never written after they are made). *)
Record ptr (A : Type) := Ptr { addr : nat; deref : A }.
Arguments Ptr {A} addr deref.
Arguments addr {A} p.
Arguments deref {A} p.

(** An [interface{}] value as the work queues and the informer hand it over:
    a [*QueueRequest], a [*Command], or a value of some other dynamic type. *)
Inductive obj :=
| ObjQueueRequest (req : ptr QueueRequest.t)
| ObjCommand (cmd : ptr Command.t)
| ObjOther (repr : string).

#[global] Instance QueueRequest_eq_dec : EqDecision QueueRequest.t.
Proof. solve_decision. Defined.
#[global] Instance OwnerReference_eq_dec : EqDecision OwnerReference.t.
Proof. solve_decision. Defined.
#[global] Instance Command_eq_dec : EqDecision Command.t.
Proof. solve_decision. Defined.
#[global] Instance ptr_eq_dec {A} `{EqDecision A} : EqDecision (ptr A).
Proof. solve_decision. Defined.
#[global] Instance obj_eq_dec : EqDecision obj.
Proof. solve_decision. Defined.

Definition obj_to_sum (o : obj) :
    nat * (string * string * string)
    + nat * (string * string * string * option (string * string * string))
    + string :=
  match o with
  | ObjQueueRequest (Ptr a (QueueRequest.mk n e act)) => inl (inl (a, (n, e, act)))
  | ObjCommand (Ptr a (Command.mk ns n act tgt)) =>
      inl (inr (a, (ns, n, act,
        match tgt with
        | Some (OwnerReference.mk v k rn) => Some (v, k, rn)
        | None => None
        end)))
  | ObjOther repr => inr repr
  end.

Definition obj_of_sum
    (x : nat * (string * string * string)
         + nat * (string * string * string * option (string * string * string))
         + string) : obj :=
  match x with
  | inl (inl (a, (n, e, act))) => ObjQueueRequest (Ptr a (QueueRequest.mk n e act))
  | inl (inr (a, (ns, n, act, tgt))) =>
      ObjCommand (Ptr a (Command.mk ns n act
        match tgt with
        | Some (v, k, rn) => Some (OwnerReference.mk v k rn)
        | None => None
        end))
  | inr repr => ObjOther repr
  end.

#[global] Instance obj_countable : Countable obj.
Proof.
  refine (inj_countable' obj_to_sum obj_of_sum _).
  intros [[a [n e act]]|[a [ns n act [[v k rn]|]]]|repr]; reflexivity.
Defined.

(** ** The rate-limited work queue of client-go

    [workqueue.NewRateLimitingQueue(workqueue.DefaultControllerRateLimiter())]:
    the de-duplicating queue ([queue], [dirty], [processing]), the delaying
    queue in front of it ([waitingForAdd], items whose delay has not passed)
    and the per-item failure counter of the rate limiter ([failures]).  The
    length of a delay is not modelled, only that the item waits. *)
Module workqueue.

Record t := mk {
  queue : list obj;
  dirty : gset obj;
  processing : gset obj;
  shuttingDown : bool;
  waitingForAdd : gset obj;
  failures : gmap obj nat
}.

Definition NewRateLimitingQueue : t := mk [] ∅ ∅ false ∅ ∅.

(** [Add]: nothing when shutting down or when the item is already dirty; an
    item that is being processed is only marked dirty. *)
Definition Add (item : obj) (q : t) : t :=
  if shuttingDown q then q
  else if decide (item ∈ dirty q) then q
  else if decide (item ∈ processing q)
    then mk (queue q) ({[item]} ∪ dirty q) (processing q)
            (shuttingDown q) (waitingForAdd q) (failures q)
    else mk (queue q ++ [item]) ({[item]} ∪ dirty q) (processing q)
            (shuttingDown q) (waitingForAdd q) (failures q).

(** [Get]: [None] when the caller has to wait (empty and not shutting down);
    [Some (None, _)] is the shutdown indicator; otherwise the head of the
    queue, which becomes processing and is no longer dirty. *)
Definition Get (q : t) : option (option obj * t) :=
  match queue q with
  | [] => if shuttingDown q then Some (None, q) else None
  | item :: rest =>
      Some (Some item,
            mk rest (dirty q ∖ {[item]}) ({[item]} ∪ processing q)
               (shuttingDown q) (waitingForAdd q) (failures q))
  end.

(** [Done]: the item is no longer processing; if it was marked dirty in the
    meantime it goes back to the queue. *)
Definition Done (item : obj) (q : t) : t :=
  if decide (item ∈ dirty q)
  then mk (queue q ++ [item]) (dirty q) (processing q ∖ {[item]})
          (shuttingDown q) (waitingForAdd q) (failures q)
  else mk (queue q) (dirty q) (processing q ∖ {[item]})
          (shuttingDown q) (waitingForAdd q) (failures q).

Definition ShutDown (q : t) : t :=
  mk (queue q) (dirty q) (processing q) true (waitingForAdd q) (failures q).

(** [NumRequeues]: the failure count the rate limiter keeps for the item. *)
Definition NumRequeues (item : obj) (q : t) : nat :=
  default 0 (failures q !! item).

(** [Forget]: the rate limiter drops its count for the item. *)
Definition Forget (item : obj) (q : t) : t :=
  mk (queue q) (dirty q) (processing q) (shuttingDown q) (waitingForAdd q)
     (delete item (failures q)).

(** [rateLimiter.When]: one more failure for the item. *)
Definition When (item : obj) (q : t) : t :=
  mk (queue q) (dirty q) (processing q) (shuttingDown q) (waitingForAdd q)
     (<[item := S (NumRequeues item q)]> (failures q)).

(** [AddAfter] with a positive delay: the item waits. *)
Definition AddAfter (item : obj) (q : t) : t :=
  if shuttingDown q then q
  else mk (queue q) (dirty q) (processing q) (shuttingDown q)
          ({[item]} ∪ waitingForAdd q) (failures q).

Definition AddRateLimited (item : obj) (q : t) : t :=
  AddAfter item (When item q).

(** The waiting loop of the delaying queue: the delay of a waiting item has
    passed and it is added. *)
Definition ready (item : obj) (q : t) : t :=
  if decide (item ∈ waitingForAdd q)
  then Add item (mk (queue q) (dirty q) (processing q) (shuttingDown q)
                    (waitingForAdd q ∖ {[item]}) (failures q))
  else q.

End workqueue.

(** ** The controller's world and the trace of its calls *)

(** The two work queues of the controller: [c.queue] and [c.commandQueue]. *)
Inductive QueueName := TheQueue | TheCommandQueue.

(** Arguments of a log call. *)
Inductive Value :=
| VString (s : string)
| VObj (o : obj)
| VError (err : error).

(** [klog.Errorf], and [klog.V(level).Infof] ([klog.Infof] is level 0). *)
Inductive Severity := SevError | SevInfo (level : nat).

Inductive Informer := QueueInformer | PodGroupInformer | CommandInformer.

(** What a [go] statement of [Run] starts. *)
Inductive Goroutine :=
| InformerRun (i : Informer)
| UntilWorker
| UntilCommandWorker.

Inductive Effect :=
| EvGet (q : QueueName) (item : option obj)
| EvDone (q : QueueName) (item : obj)
| EvForget (q : QueueName) (item : obj)
| EvAddRateLimited (q : QueueName) (item : obj)
| EvAdd (q : QueueName) (item : obj)
| EvShutDown (q : QueueName)
| EvDelete (namespace name : string) (result : option error)
| EvExecute (queue : Queue.t) (action : QueueAction) (result : option error)
| EvRecordEventsForQueue (name eventType reason message : string)
| EvKlog (sev : Severity) (format : string) (args : list Value)
| EvGo (g : Goroutine) (at_time : nat)
| EvHandleCrash.

Record World := mkWorld {
  (** [c.queue] and [c.commandQueue] *)
  queue : workqueue.t;
  commandQueue : workqueue.t;
  (** what [c.queueLister.Get] answers, from the informer's cache *)
  queueLister : string → Queue.t + error;
  (** the Command objects the cluster API holds, by namespace and name *)
  commands : gset (string * string);
  (** what goes wrong with the coming API calls: a call takes the head, and
      fails with it when it is an error *)
  apiFaults : list (option error);
  (** the next free address *)
  nextAddr : nat;
  (** the clock, in polling periods *)
  now : nat;
  (** the calls made so far, oldest first *)
  trace : list Effect
}.

Definition workQueue (q : QueueName) (s : World) : workqueue.t :=
  match q with
  | TheQueue => queue s
  | TheCommandQueue => commandQueue s
  end.

Definition setWorkQueue (q : QueueName) (w : workqueue.t) (s : World) : World :=
  match q with
  | TheQueue =>
      mkWorld w (commandQueue s) (queueLister s) (commands s) (apiFaults s)
              (nextAddr s) (now s) (trace s)
  | TheCommandQueue =>
      mkWorld (queue s) w (queueLister s) (commands s) (apiFaults s)
              (nextAddr s) (now s) (trace s)
  end.

Definition emit (e : Effect) (s : World) : World :=
  mkWorld (queue s) (commandQueue s) (queueLister s) (commands s) (apiFaults s)
          (nextAddr s) (now s) (trace s ++ [e]).

(** ** The monad of the controller's methods *)

Inductive outcome (A : Type) :=
| Return (a : A)
| Panic (msg : string)
| Blocked.
Arguments Return {A} a.
Arguments Panic {A} msg.
Arguments Blocked {A}.

Definition M (A : Type) : Type := World → outcome A * World.

#[global] Instance M_ret : MRet M := λ A a s, (Return a, s).

#[global] Instance M_bind : MBind M := λ A B f m s,
  match m s with
  | (Return a, s') => f a s'
  | (Panic msg, s') => (Panic msg, s')
  | (Blocked, s') => (Blocked, s')
  end.

(** [defer d] before [body]: [d] runs when the body returns or panics. *)
Definition defer {A} (d : M unit) (body : M A) : M A := λ s,
  match body s with
  | (Blocked, s') => (Blocked, s')
  | (r, s') =>
      match d s' with
      | (Return _, s'') => (r, s'')
      | (Panic msg, s'') => (Panic msg, s'')
      | (Blocked, s'') => (Blocked, s'')
      end
  end.

Definition tell (e : Effect) : M unit := λ s, (Return (), emit e s).

Definition panic {A} (msg : string) : M A := λ s, (Panic msg, s).

Definition nilDereference : string :=
  "invalid memory address or nil pointer dereference".

Definition klog (sev : Severity) (format : string) (args : list Value) : M unit :=
  tell (EvKlog sev format args).

(** *** The work queue's methods as the controller calls them *)

Definition Get (q : QueueName) : M (option obj) := λ s,
  match workqueue.Get (workQueue q s) with
  | None => (Blocked, s)
  | Some (item, w) => (Return item, emit (EvGet q item) (setWorkQueue q w s))
  end.

Definition Done (q : QueueName) (item : obj) : M unit := λ s,
  (Return (), emit (EvDone q item) (setWorkQueue q (workqueue.Done item (workQueue q s)) s)).

Definition Forget (q : QueueName) (item : obj) : M unit := λ s,
  (Return (), emit (EvForget q item) (setWorkQueue q (workqueue.Forget item (workQueue q s)) s)).

Definition AddRateLimited (q : QueueName) (item : obj) : M unit := λ s,
  (Return (), emit (EvAddRateLimited q item)
                (setWorkQueue q (workqueue.AddRateLimited item (workQueue q s)) s)).

Definition Add (q : QueueName) (item : obj) : M unit := λ s,
  (Return (), emit (EvAdd q item) (setWorkQueue q (workqueue.Add item (workQueue q s)) s)).

Definition ShutDown (q : QueueName) : M unit := λ s,
  (Return (), emit (EvShutDown q) (setWorkQueue q (workqueue.ShutDown (workQueue q s)) s)).

Definition NumRequeues (q : QueueName) (item : obj) : M nat := λ s,
  (Return (workqueue.NumRequeues item (workQueue q s)), s).

(** *** The lister and the API client *)

Definition queueLister_Get (name : string) : M (Queue.t + error) := λ s,
  (Return (queueLister s name), s).

(** [c.vcClient.BusV1alpha1().Commands(namespace).Delete(name, nil)]: the call
    fails with the pending fault if there is one; otherwise it removes the
    command, or answers NotFound when there is none. *)
Definition Commands_Delete (namespace name : string) : M (option error) := λ s,
  let fault := match apiFaults s with f :: _ => f | [] => None end in
  let result :=
    match fault with
    | Some err => Some err
    | None =>
        if decide ((namespace, name) ∈ commands s) then None
        else Some (StatusError apierrors.StatusReasonNotFound
                     ("commands.bus.volcano.sh " ++ quoted name ++ " not found"))
    end in
  let commands' :=
    match result with
    | None => commands s ∖ {[(namespace, name)]}
    | Some _ => commands s
    end in
  (Return result,
   emit (EvDelete namespace name result)
     (mkWorld (queue s) (commandQueue s) (queueLister s) commands'
              (tail (apiFaults s)) (nextAddr s) (now s) (trace s))).

(** [&T{...}]: a pointer to a new value. *)
Definition new {A} (v : A) : M (ptr A) := λ s,
  (Return (Ptr (nextAddr s) v),
   mkWorld (queue s) (commandQueue s) (queueLister s) (commands s) (apiFaults s)
           (S (nextAddr s)) (now s) (trace s)).

(** [time.Now] and [time.Since] only feed the log line at the end of a handler;
    the elapsed time is left out of its arguments. *)

(** ** The controller *)

(** [cache.InformerSynced]: whether the informer's cache has synced, asked at
    a given time. *)
Definition InformerSynced := nat → bool.

Record Controller := mkController {
  queueSynced : InformerSynced;
  pgSynced : InformerSynced;
  cmdSynced : InformerSynced;
  syncHandler : ptr QueueRequest.t → M (option error);
  syncCommandHandler : ptr Command.t → M (option error);
  enqueueQueue : ptr QueueRequest.t → M unit
}.

(** maxRetries is the number of times a queue or command will be retried
    before it is dropped out of the queue. *)
Definition maxRetries : nat := 15.

(** Modelled from the spec: [recordEventsForQueue] is a method of the
    controller defined outside src/; by the spec an event of the given type,
    reason and message is recorded against the queue of that name.  The call
    and its arguments are kept in the trace. *)
Definition recordEventsForQueue (name eventType reason message : string) : M unit :=
  tell (EvRecordEventsForQueue name eventType reason message).

(** Modelled from the spec: [c.enqueue], the controller's method behind
    [enqueueQueue], is defined outside src/; by the spec a request is enqueued
    onto the queue-request queue. *)
Definition enqueue (req : ptr QueueRequest.t) : M unit :=
  Add TheQueue (ObjQueueRequest req).

(** Modelled from the spec: [c.addCommand], the handler behind the command
    filter, is defined outside src/; by the spec an admitted command is
    enqueued directly onto the command queue, with no transformation. *)
Definition addCommand (o : obj) : M unit :=
  Add TheCommandQueue o.

(** *** The event handlers of client-go's informers *)

Record ResourceEventHandlerFuncs := mkHandlerFuncs {
  AddFunc : option (obj → M unit);
  UpdateFunc : option (obj → obj → M unit);
  DeleteFunc : option (obj → M unit)
}.

Record FilteringResourceEventHandler := mkFiltering {
  FilterFunc : obj → bool;
  Handler : ResourceEventHandlerFuncs
}.

Definition Handler_OnAdd (h : ResourceEventHandlerFuncs) (o : obj) : M unit :=
  match AddFunc h with Some f => f o | None => mret () end.

Definition Handler_OnUpdate (h : ResourceEventHandlerFuncs) (oldObj newObj : obj) : M unit :=
  match UpdateFunc h with Some f => f oldObj newObj | None => mret () end.

Definition Handler_OnDelete (h : ResourceEventHandlerFuncs) (o : obj) : M unit :=
  match DeleteFunc h with Some f => f o | None => mret () end.

Definition OnAdd (r : FilteringResourceEventHandler) (o : obj) : M unit :=
  if negb (FilterFunc r o) then mret () else Handler_OnAdd (Handler r) o.

Definition OnUpdate (r : FilteringResourceEventHandler) (oldObj newObj : obj) : M unit :=
  let newer := FilterFunc r newObj in
  let older := FilterFunc r oldObj in
  if newer && older then Handler_OnUpdate (Handler r) oldObj newObj
  else if newer && negb older then Handler_OnAdd (Handler r) newObj
  else if negb newer && older then Handler_OnDelete (Handler r) oldObj
  else mret ().

Definition OnDelete (r : FilteringResourceEventHandler) (o : obj) : M unit :=
  if negb (FilterFunc r o) then mret () else Handler_OnDelete (Handler r) o.

(** What an informer delivers to its handler. *)
Inductive Notification :=
| Added (o : obj)
| Updated (oldObj newObj : obj)
| Deleted (o : obj).

Definition deliver (r : FilteringResourceEventHandler) (n : Notification) : M unit :=
  match n with
  | Added o => OnAdd r o
  | Updated oldObj newObj => OnUpdate r oldObj newObj
  | Deleted o => OnDelete r o
  end.

(** *** Waiting for the caches *)

(** [wait.PollUntil]: the condition is asked once per period, at the times
    [t], [t+1], ...; [ticks] periods are left before the stop channel is
    closed.  The answer comes with the time it is given at. *)
Fixpoint PollUntil (condition : nat → bool) (ticks t : nat) : bool * nat :=
  match ticks with
  | 0 => (false, t)
  | S ticks' =>
      if condition t then (true, t) else PollUntil condition ticks' (S t)
  end.

(** [cache.WaitForCacheSync(stopCh, cacheSyncs...)]; [stopCh] is the time the
    stop channel is closed at. *)
Definition WaitForCacheSync (stopCh : nat) (cacheSyncs : list InformerSynced) : M bool := λ s,
  let '(ok, t) :=
    PollUntil (λ t, forallb (λ syncFunc : InformerSynced, syncFunc t) cacheSyncs)
              (stopCh - S (now s)) (S (now s)) in
  (Return ok,
   mkWorld (queue s) (commandQueue s) (queueLister s) (commands s) (apiFaults s)
           (nextAddr s) t (trace s)).

(** [<-stopCh]: wait until the stop channel is closed. *)
Definition receive (stopCh : nat) : M unit := λ s,
  (Return (),
   mkWorld (queue s) (commandQueue s) (queueLister s) (commands s) (apiFaults s)
           (nextAddr s) (now s `max` stopCh) (trace s)).

(** *** The methods of [queue_controller.go]

    The state machine of the package [queue/state] is not under src/: its
    state objects, its constructor [NewState] (nil for a declared state it does
    not know) and its [Execute] are taken as they come.  So is
    [IsQueueReference], which the command filter calls. *)
Section QueueController.

(** [queuestate.State], [queuestate.NewState] and [State.Execute]; what
    [Execute] answers may depend on the world it runs in. *)
Variable queuestate_State : Type.
Variable NewState : Queue.t → option queuestate_State.
Variable Execute : queuestate_State → QueueAction → World → option error.

(** [IsQueueReference] of a [*metav1.OwnerReference]. *)
Variable IsQueueReference : option OwnerReference.t → bool.

Definition queueState_Execute (queue : Queue.t) (queueState : queuestate_State)
    (action : QueueAction) : M (option error) := λ s,
  let result := Execute queueState action s in
  (Return result, emit (EvExecute queue action result) s).

(** The handler [NewQueueController] gives the command informer. *)
Definition cmdEventHandler : FilteringResourceEventHandler :=
  {| FilterFunc := λ o,
       match o with
       | ObjCommand cmd => IsQueueReference (Command.TargetObject (deref cmd))
       | _ => false
       end;
     Handler := {| AddFunc := Some addCommand; UpdateFunc := None; DeleteFunc := None |} |}.

Definition handleQueue (req : ptr QueueRequest.t) : M (option error) :=
  let Name := QueueRequest.Name (deref req) in
  defer (klog (SevInfo 4) "Finished syncing queue %s (%v)." [VString Name])
    (got ← queueLister_Get Name;
     match got with
     | inr err =>
         if IsNotFound err then
           klog (SevInfo 4) "Queue %s has been deleted." [VString Name];;
           mret None
         else
           mret (Some (Errorf ("get queue " ++ Name ++ " failed for " ++ Error err)))
     | inl queue =>
         match NewState queue with
         | None =>
             mret (Some (Errorf ("queue " ++ Queue.Name queue ++ " state "
                                   ++ Queue.Status_State queue ++ " is invalid")))
         | Some queueState =>
             result ← queueState_Execute queue queueState (QueueRequest.Action (deref req));
             match result with
             | Some err =>
                 mret (Some (Errorf ("sync queue " ++ Name ++ " failed for " ++ Error err
                                       ++ ", event is " ++ QueueRequest.Event (deref req)
                                       ++ ", action is " ++ QueueRequest.Action (deref req))))
             | None => mret None
             end
         end
     end).

Definition handleQueueErr (err : option error) (o : obj) : M unit :=
  match err with
  | None => Forget TheQueue o
  | Some err =>
      n ← NumRequeues TheQueue o;
      if decide (n < maxRetries) then
        klog (SevInfo 4) "Error syncing queue request %v for %v." [VObj o; VError err];;
        AddRateLimited TheQueue o
      else
        match o with
        | ObjQueueRequest req =>
            recordEventsForQueue (QueueRequest.Name (deref req)) EventTypeWarning
              (QueueRequest.Action (deref req))
              (QueueRequest.Action (deref req) ++ " queue failed for " ++ Error err);;
            klog (SevInfo 2) "Dropping queue request %v out of the queue for %v."
                 [VObj o; VError err];;
            Forget TheQueue o
        | _ => panic nilDereference
        end
  end.

Definition processNextWorkItem (c : Controller) : M bool :=
  got ← Get TheQueue;
  match got with
  | None => mret false
  | Some o =>
      defer (Done TheQueue o)
        match o with
        | ObjQueueRequest req =>
            err ← syncHandler c req;
            handleQueueErr err o;;
            mret true
        | _ =>
            klog SevError "%v is not a valid queue request struct." [VObj o];;
            mret true
        end
  end.

(** [worker]: [for c.processNextWorkItem() {}], at most [fuel] times round
    the loop; [None] when the loop has not ended by then. *)
Fixpoint worker (fuel : nat) (c : Controller) : M (option unit) :=
  match fuel with
  | 0 => mret None
  | S fuel' =>
      continue ← processNextWorkItem c;
      if continue : bool then worker fuel' c else mret (Some ())
  end.

Definition handleCommand (c : Controller) (cmd : ptr Command.t) : M (option error) :=
  let Namespace := Command.Namespace (deref cmd) in
  let Name := Command.Name (deref cmd) in
  defer (klog (SevInfo 4) "Finished syncing command %s/%s (%v)."
              [VString Namespace; VString Name])
    (err ← Commands_Delete Namespace Name;
     match err with
     | Some err =>
         if IsNotFound err then mret None
         else mret (Some (Errorf ("failed to delete command <" ++ Namespace ++ "/" ++ Name
                                    ++ "> for " ++ Error err)))
     | None =>
         match Command.TargetObject (deref cmd) with
         | None => panic nilDereference
         | Some TargetObject =>
             req ← new (QueueRequest.mk (OwnerReference.Name TargetObject)
                                        QueueCommandIssuedEvent
                                        (Command.Action (deref cmd)));
             enqueueQueue c req;;
             mret None
         end
     end).

Definition handleCommandErr (err : option error) (o : obj) : M unit :=
  match err with
  | None => Forget TheCommandQueue o
  | Some err =>
      n ← NumRequeues TheCommandQueue o;
      if decide (n < maxRetries) then
        klog (SevInfo 4) "Error syncing command %v for %v." [VObj o; VError err];;
        AddRateLimited TheCommandQueue o
      else
        klog (SevInfo 2) "Dropping command %v out of the queue for %v." [VObj o; VError err];;
        Forget TheCommandQueue o
  end.

Definition processNextCommand (c : Controller) : M bool :=
  got ← Get TheCommandQueue;
  match got with
  | None => mret false
  | Some o =>
      defer (Done TheCommandQueue o)
        match o with
        | ObjCommand cmd =>
            err ← syncCommandHandler c cmd;
            handleCommandErr err o;;
            mret true
        | _ =>
            klog SevError "%v is not a valid Command struct." [VObj o];;
            mret true
        end
  end.

Fixpoint commandWorker (fuel : nat) (c : Controller) : M (option unit) :=
  match fuel with
  | 0 => mret None
  | S fuel' =>
      continue ← processNextCommand c;
      if continue : bool then commandWorker fuel' c else mret (Some ())
  end.

(** [NewQueueController], as far as the methods above read the controller:
    the handlers and [enqueueQueue] are the controller's own methods.
    [c.handleCommand] is bound to the controller under construction, of which
    it reads [enqueueQueue] only. *)
Definition NewQueueController (queueSynced pgSynced cmdSynced : InformerSynced) : Controller :=
  let c := mkController queueSynced pgSynced cmdSynced handleQueue (λ _, mret None) enqueue in
  mkController queueSynced pgSynced cmdSynced handleQueue (handleCommand c) enqueue.

(** A [go] statement, as the calling goroutine sees it: the goroutine is
    started and the caller goes on.  What the started goroutine does is no
    part of the caller's calls; [RunAmong] below puts it into the world. *)
Definition go (g : Goroutine) : M unit := λ s, (Return (), emit (EvGo g (now s)) s).

(** [Run], the calls of its own goroutine. *)
Definition Run (c : Controller) (stopCh : nat) : M unit :=
  defer (tell EvHandleCrash)
    (defer (ShutDown TheQueue)
       (defer (ShutDown TheCommandQueue)
          (klog (SevInfo 0) "Starting queue controller." [];;
           defer (klog (SevInfo 0) "Shutting down queue controller." [])
             (go (InformerRun QueueInformer);;
              go (InformerRun PodGroupInformer);;
              go (InformerRun CommandInformer);;
              synced ← WaitForCacheSync stopCh [queueSynced c; pgSynced c; cmdSynced c];
              if negb (synced : bool) then
                klog SevError "unable to sync caches for queue controller." []
              else
                go UntilWorker;;
                go UntilCommandWorker;;
                receive stopCh)))).

End QueueController.

(** ** Notions the statements use *)

Local Open Scope list_scope.

(** The world after some more calls. *)
Definition appendTrace (calls : list Effect) (s : World) : World :=
  mkWorld (queue s) (commandQueue s) (queueLister s) (commands s) (apiFaults s)
          (nextAddr s) (now s) (trace s ++ calls).

Definition isDone (e : Effect) : bool :=
  match e with EvDone _ _ => true | _ => false end.

Definition isForget (e : Effect) : bool :=
  match e with EvForget _ _ => true | _ => false end.

Definition isAddRateLimited (e : Effect) : bool :=
  match e with EvAddRateLimited _ _ => true | _ => false end.

Definition isAdd (e : Effect) : bool :=
  match e with EvAdd _ _ => true | _ => false end.

Definition isRecordEvent (e : Effect) : bool :=
  match e with EvRecordEventsForQueue _ _ _ _ => true | _ => false end.

Definition isExecute (e : Effect) : bool :=
  match e with EvExecute _ _ _ => true | _ => false end.

Definition isWorkerStart (e : Effect) : bool :=
  match e with
  | EvGo UntilWorker _ | EvGo UntilCommandWorker _ => true
  | _ => false
  end.

(** How often a kind of call occurs. *)
Definition count (kind : Effect → bool) (calls : list Effect) : nat :=
  length (List.filter kind calls).

(** The three caches of [Run] have all synced at time [t]. *)
Definition allSynced (c : Controller) (t : nat) : bool :=
  queueSynced c t && pgSynced c t && cmdSynced c t.

(** The delay of a waiting item passes: the delaying queue adds it. *)
Definition delayPasses (q : QueueName) (item : obj) : M unit := λ s,
  (Return (), setWorkQueue q (workqueue.ready item (workQueue q s)) s).

(** One attempt on the queue-request queue, after which the delay of [item]
    passes if it was put back. *)
Definition attempt (c : Controller) (item : obj) : M bool :=
  continue ← processNextWorkItem c;
  delayPasses TheQueue item;;
  mret continue.

(** [n] attempts in a row. *)
Fixpoint attempts (n : nat) (c : Controller) (item : obj) : M unit :=
  match n with
  | 0 => mret ()
  | S n' => attempt c item;; attempts n' c item
  end.

(** The same command handled [n] times in a row, as when the informer
    delivers it again. *)
Fixpoint redeliver (n : nat) (c : Controller) (cmd : ptr Command.t) : M unit :=
  match n with
  | 0 => mret ()
  | S n' => handleCommand c cmd;; redeliver n' c cmd
  end.

(** The worker of each work queue, the type of item it expects and what it
    logs for any other. *)
Definition processNext (q : QueueName) : Controller → M bool :=
  match q with
  | TheQueue => processNextWorkItem
  | TheCommandQueue => processNextCommand
  end.

Definition workerLoop (q : QueueName) : nat → Controller → M (option unit) :=
  match q with
  | TheQueue => worker
  | TheCommandQueue => commandWorker
  end.

Definition expectedType (q : QueueName) (o : obj) : bool :=
  match q, o with
  | TheQueue, ObjQueueRequest _ => true
  | TheCommandQueue, ObjCommand _ => true
  | _, _ => false
  end.

Definition notValidFormat (q : QueueName) : string :=
  match q with
  | TheQueue => "%v is not a valid queue request struct."
  | TheCommandQueue => "%v is not a valid Command struct."
  end.

(** [item] is the one item queued, it is neither being processed nor waiting
    for a delay, and it has been put back [k] times. *)
Definition queuedAlone (item : obj) (k : nat) (w : workqueue.t) : Prop :=
  workqueue.queue w = [item] ∧
  (item ∉ workqueue.processing w) ∧
  (item ∉ workqueue.waitingForAdd w) ∧
  workqueue.shuttingDown w = false ∧
  workqueue.NumRequeues item w = k.

(** Nothing is queued, and [item] neither waits for a delay nor has a count
    of failures. *)
Definition dropped (item : obj) (w : workqueue.t) : Prop :=
  workqueue.queue w = [] ∧
  (item ∉ workqueue.waitingForAdd w) ∧
  workqueue.shuttingDown w = false ∧
  workqueue.NumRequeues item w = 0.

(** One attempt on the command queue, after which the delay of [item] passes
    if it was put back. *)
Definition commandAttempt (c : Controller) (item : obj) : M bool :=
  continue ← processNextCommand c;
  delayPasses TheCommandQueue item;;
  mret continue.

Fixpoint commandAttempts (n : nat) (c : Controller) (item : obj) : M unit :=
  match n with
  | 0 => mret ()
  | S n' => commandAttempt c item;; commandAttempts n' c item
  end.

(** The next [n] calls of the cluster API fail, none of them with not
    found. *)
Definition failing (n : nat) (faults : list (option error)) : Prop :=
  ∀ i, (i < n)%nat → ∃ err, faults !! i = Some (Some err) ∧ IsNotFound err = false.

(** The queued items of a work queue are distinct and marked dirty, as [Add]
    and [Done] leave them. *)
Definition wellFormed (w : workqueue.t) : Prop :=
  NoDup (workqueue.queue w) ∧
  ∀ item, item ∈ workqueue.queue w → item ∈ workqueue.dirty w.

Definition isGet (e : Effect) : bool :=
  match e with EvGet _ _ => true | _ => false end.

(** What other goroutines have done to the world while the caller waited. *)
Definition meanwhile (others : World → World) : M unit := λ s, (Return (), others s).

(** [Run] among the goroutines it starts.  The informers and, once started,
    the two workers run beside [Run]: [others i] is what they have done to the
    world by the [i]-th point at which [Run] goes on, after the wait for the
    caches (0), after the stop channel is closed (1), and after each of the
    deferred calls (2, 3, 4) but the last, after which [Run] returns. *)
Definition RunAmong (others : nat → World → World) (c : Controller) (stopCh : nat)
    : M unit :=
  defer (tell EvHandleCrash)
    (defer (ShutDown TheQueue;; meanwhile (others 4))
       (defer (ShutDown TheCommandQueue;; meanwhile (others 3))
          (klog (SevInfo 0) "Starting queue controller." [];;
           defer (klog (SevInfo 0) "Shutting down queue controller." [];;
                  meanwhile (others 2))
             (go (InformerRun QueueInformer);;
              go (InformerRun PodGroupInformer);;
              go (InformerRun CommandInformer);;
              synced ← WaitForCacheSync stopCh [queueSynced c; pgSynced c; cmdSynced c];
              meanwhile (others 0);;
              if negb (synced : bool) then
                klog SevError "unable to sync caches for queue controller." []
              else
                go UntilWorker;;
                go UntilCommandWorker;;
                receive stopCh;;
                meanwhile (others 1))))).

(** A method leaves the shutdown flags of both work queues as they are. *)
Definition keeps {A} (m : M A) : Prop :=
  ∀ q s, workqueue.shuttingDown (workQueue q (snd (m s)))
         = workqueue.shuttingDown (workQueue q s).

(** What the other goroutines do never reopens a work queue that is shut
    down. *)
Definition neverReopens (others : nat → World → World) : Prop :=
  ∀ i q s, workqueue.shuttingDown (workQueue q s) = true →
           workqueue.shuttingDown (workQueue q (others i s)) = true.

(** [k] failures of [item] in a row, as the retry decision [handleErr] of its
    queue sees them: the [i]-th failure is the error [errs i], and before it
    the world changes by [between i] (other items are processed, delays pass).
    The result is the calls of the [k] decisions and the world after the
    last. *)
Fixpoint failuresInARow (handleErr : option error → obj → M unit)
    (between : nat → World → World) (errs : nat → error) (item : obj)
    (k : nat) (s : World) : list Effect * World :=
  match k with
  | 0 => ([], s)
  | S k' =>
      let '(calls, s1) := failuresInARow handleErr between errs item k' s in
      let s2 := between k' s1 in
      let s3 := snd (handleErr (Some (errs k')) item s2) in
      (calls ++ drop (length (trace s2)) (trace s3), s3)
  end.

(** The [Done] calls and the [Get] calls among some calls, in order. *)
Definition doneCalls (calls : list Effect) : list Effect := List.filter isDone calls.
Definition getCalls (calls : list Effect) : list Effect := List.filter isGet calls.

(** ** Concrete scenarios *)

(** A cluster with three queues behind the lister, one command, and a state
    machine that knows the declared states Open, Closed and Closing. *)
Module Scenario.

Definition NewState (declared : Queue.t) : option QueueState :=
  if bool_decide (Queue.Status_State declared ∈ ["Open"; "Closed"; "Closing"])
  then Some (Queue.Status_State declared) else None.

(** The state machine fails when the cluster API has a fault pending. *)
Definition Execute (queueState : QueueState) (action : QueueAction) (s : World)
    : option error :=
  match apiFaults s with
  | Some err :: _ => Some err
  | _ => None
  end.

Definition IsQueueReference (ref : option OwnerReference.t) : bool :=
  match ref with
  | Some ref => bool_decide (OwnerReference.Kind ref = "Queue")
  | None => false
  end.

(** A cache that has synced from the time [t0] on. *)
Definition syncedFrom (t0 : nat) : InformerSynced := λ t, bool_decide (t0 ≤ t)%nat.

Definition controller : Controller :=
  NewQueueController QueueState NewState Execute (syncedFrom 1) (syncedFrom 2) (syncedFrom 3).

Definition timeout : error :=
  StatusError apierrors.StatusReasonTimeout "request timed out".

(** The queue default is open, the queue paused declares a state the state
    machine does not know, the lookup of the queue flaky times out, and
    there is no other queue. *)
Definition lister (name : string) : Queue.t + error :=
  if bool_decide (name = "default") then inl (Queue.mk "default" "Open")
  else if bool_decide (name = "paused") then inl (Queue.mk "paused" "Paused")
  else if bool_decide (name = "flaky") then inr timeout
  else inr (StatusError apierrors.StatusReasonNotFound "queue not found").

Definition request (name : string) : ptr QueueRequest.t :=
  Ptr 1 (QueueRequest.mk name "OutOfSync" "CloseQueue").

Definition command : ptr Command.t :=
  Ptr 2 (Command.mk "batch" "close-default" "CloseQueue"
           (Some (OwnerReference.mk "scheduling.volcano.sh/v1alpha2" "Queue" "default"))).

(** A work queue on which [item] was just enqueued, and one on which it has
    already been put back [maxRetries] times. *)
Definition enqueued (item : obj) : workqueue.t :=
  workqueue.Add item workqueue.NewRateLimitingQueue.

Definition exhausted (item : obj) : workqueue.t :=
  workqueue.mk [item] {[item]} ∅ false ∅ {[item := maxRetries]}.

(** The work queue after [Get] has taken [item], the one item queued. *)
Definition taken (item : obj) (w : workqueue.t) : workqueue.t :=
  workqueue.mk [] (workqueue.dirty w ∖ {[item]}) ({[item]} ∪ workqueue.processing w)
    (workqueue.shuttingDown w) (workqueue.waitingForAdd w) (workqueue.failures w).

Definition world (queue commandQueue : workqueue.t) (faults : list (option error)) : World :=
  mkWorld queue commandQueue lister {[("batch", "close-default")]} faults 10 0 [].

(** A request for a queue that is gone, one for the queue whose lookup
    fails, and one for the queue with the unknown state. *)
Definition gone : ptr QueueRequest.t := request "gone".
Definition flaky : ptr QueueRequest.t := request "flaky".
Definition paused : ptr QueueRequest.t := request "paused".

(** The world with one request just enqueued. *)
Definition requested (req : ptr QueueRequest.t) : World :=
  world (enqueued (ObjQueueRequest req)) workqueue.NewRateLimitingQueue [].

(** The world with the command just enqueued on the command queue. *)
Definition commanded : World :=
  world workqueue.NewRateLimitingQueue (enqueued (ObjCommand command)) [].

(** The world in which the request and the command have both been put back
    [maxRetries] times, and the cluster API times out. *)
Definition worn : World :=
  world (exhausted (ObjQueueRequest flaky)) (exhausted (ObjCommand command)) [Some timeout].

(** The world in which only the request has been put back [maxRetries]
    times: the command queue is new. *)
Definition wornRequest : World :=
  world (exhausted (ObjQueueRequest flaky)) workqueue.NewRateLimitingQueue [].

(** The world with a command on the queue-request queue, where a request is
    expected. *)
Definition misplaced : World :=
  world (enqueued (ObjCommand command)) workqueue.NewRateLimitingQueue [].

(** A state machine that executes every action without error. *)
Definition Succeeds (queueState : QueueState) (action : QueueAction) (s : World)
    : option error := None.

(** A request for the open queue. *)
Definition wanted : ptr QueueRequest.t := request "default".

(** The world in which the command is enqueued and the cluster API times out
    for the next [maxRetries] + 1 calls. *)
Definition stuck : World :=
  world workqueue.NewRateLimitingQueue (enqueued (ObjCommand command))
        (replicate (S maxRetries) (Some timeout)).

(** A command without target object, under the name of the command that is
    in the cluster, and the world in which it is enqueued. *)
Definition untargeted : ptr Command.t :=
  Ptr 3 (Command.mk "batch" "close-default" "CloseQueue" None).

Definition misdirected : World :=
  world workqueue.NewRateLimitingQueue (enqueued (ObjCommand untargeted)) [].

(** Between the calls of [Run], each worker goes once round its loop. *)
Definition workersGoRound (i : nat) (s : World) : World :=
  snd (processNextCommand controller (snd (processNextWorkItem controller s))).

(** The world in which a request is queued and the queue is shut down. *)
Definition stopped : World :=
  world (workqueue.ShutDown (enqueued (ObjQueueRequest gone)))
        workqueue.NewRateLimitingQueue [].

End Scenario.

(** * Properties *)

#[local] Set Warnings "-clear-no-such-hyp".

Ltac unfold_M :=
  unfold mbind, M_bind, mret, M_ret, defer, klog, tell, panic, Get, Done, Forget,
    AddRateLimited, Add, ShutDown, NumRequeues, queueLister_Get, recordEventsForQueue,
    enqueue, addCommand, new, go, receive in *.

Ltac world_eq :=
  unfold appendTrace, emit, setWorkQueue, workQueue; simpl;
  rewrite <- ?app_assoc; simpl; try reflexivity.

Lemma trace_appendTrace calls s : trace (appendTrace calls s) = trace s ++ calls.
Proof. reflexivity. Qed.

Lemma appendTrace_appendTrace calls1 calls2 s :
  appendTrace calls2 (appendTrace calls1 s) = appendTrace (calls1 ++ calls2) s.
Proof. unfold appendTrace; simpl. by rewrite app_assoc. Qed.

Lemma count_app kind calls1 calls2 :
  count kind (calls1 ++ calls2) = count kind calls1 + count kind calls2.
Proof. unfold count. by rewrite List.filter_app, length_app. Qed.

Section Properties.

Variable queuestate_State : Type.
Variable NewState : Queue.t → option queuestate_State.
Variable Execute : queuestate_State → QueueAction → World → option error.
Variable IsQueueReference : option OwnerReference.t → bool.

Local Abbreviation handleQueue := (handleQueue queuestate_State NewState Execute).
Local Abbreviation NewQueueController := (NewQueueController queuestate_State NewState Execute).
Local Abbreviation cmdEventHandler := (cmdEventHandler IsQueueReference).

(** *** What [handleQueue] does, case by case *)

Lemma handleQueue_not_found req s err :
  queueLister s (QueueRequest.Name (deref req)) = inr err →
  IsNotFound err = true →
  handleQueue req s =
    (Return None,
     appendTrace
       [EvKlog (SevInfo 4) "Queue %s has been deleted." [VString (QueueRequest.Name (deref req))];
        EvKlog (SevInfo 4) "Finished syncing queue %s (%v)."
               [VString (QueueRequest.Name (deref req))]] s).
Proof.
  intros Hget Hnf. unfold handleQueue. unfold_M. simpl.
  rewrite Hget, Hnf. simpl. f_equal. world_eq.
Qed.

Lemma handleQueue_lookup_error req s err :
  queueLister s (QueueRequest.Name (deref req)) = inr err →
  IsNotFound err = false →
  handleQueue req s =
    (Return (Some (errorString
       ("get queue " +:+ QueueRequest.Name (deref req) +:+ " failed for " +:+ Error err))),
     appendTrace
       [EvKlog (SevInfo 4) "Finished syncing queue %s (%v)."
               [VString (QueueRequest.Name (deref req))]] s).
Proof.
  intros Hget Hnf. unfold handleQueue. unfold_M. simpl.
  rewrite Hget, Hnf. simpl. reflexivity.
Qed.

Lemma handleQueue_invalid_state req s queue :
  queueLister s (QueueRequest.Name (deref req)) = inl queue →
  NewState queue = None →
  handleQueue req s =
    (Return (Some (errorString
       ("queue " +:+ Queue.Name queue +:+ " state " +:+ Queue.Status_State queue
          +:+ " is invalid"))),
     appendTrace
       [EvKlog (SevInfo 4) "Finished syncing queue %s (%v)."
               [VString (QueueRequest.Name (deref req))]] s).
Proof.
  intros Hget Hnew. unfold handleQueue. unfold_M. simpl.
  rewrite Hget, Hnew. simpl. reflexivity.
Qed.

Lemma handleQueue_execute req s queue queueState :
  queueLister s (QueueRequest.Name (deref req)) = inl queue →
  NewState queue = Some queueState →
  handleQueue req s =
    (Return
       match Execute queueState (QueueRequest.Action (deref req)) s with
       | Some err =>
           Some (errorString
             ("sync queue " +:+ QueueRequest.Name (deref req) +:+ " failed for " +:+ Error err
                +:+ ", event is " +:+ QueueRequest.Event (deref req)
                +:+ ", action is " +:+ QueueRequest.Action (deref req)))
       | None => None
       end,
     appendTrace
       [EvExecute queue (QueueRequest.Action (deref req))
                  (Execute queueState (QueueRequest.Action (deref req)) s);
        EvKlog (SevInfo 4) "Finished syncing queue %s (%v)."
               [VString (QueueRequest.Name (deref req))]] s).
Proof.
  intros Hget Hnew. unfold handleQueue, queueState_Execute. unfold_M. simpl.
  rewrite Hget, Hnew. simpl.
  destruct (Execute queueState _ s); simpl; f_equal; world_eq.
Qed.

(** [handleQueue] returns, and calls nothing but the state machine and the
    log. *)
Lemma handleQueue_calls req s :
  ∃ result calls,
    handleQueue req s = (Return result, appendTrace calls s) ∧
    Forall (λ e, match e with EvKlog _ _ _ | EvExecute _ _ _ => True | _ => False end) calls.
Proof.
  destruct (queueLister s (QueueRequest.Name (deref req))) as [queue|err] eqn:Hget.
  - destruct (NewState queue) as [queueState|] eqn:Hnew.
    + eexists _, _. split; [by apply handleQueue_execute|]. by repeat constructor.
    + eexists _, _. split; [by apply handleQueue_invalid_state|]. by repeat constructor.
  - destruct (IsNotFound err) eqn:Hnf.
    + eexists _, _. split; [by eapply handleQueue_not_found|]. by repeat constructor.
    + eexists _, _. split; [by eapply handleQueue_lookup_error|]. by repeat constructor.
Qed.

(** *** What [handleQueueErr] and [handleCommandErr] do *)

Lemma handleQueueErr_nil o s :
  handleQueueErr None o s =
    (Return (),
     appendTrace [EvForget TheQueue o]
       (setWorkQueue TheQueue (workqueue.Forget o (queue s)) s)).
Proof. reflexivity. Qed.

Lemma handleQueueErr_retry err o s :
  workqueue.NumRequeues o (queue s) < maxRetries →
  handleQueueErr (Some err) o s =
    (Return (),
     appendTrace
       [EvKlog (SevInfo 4) "Error syncing queue request %v for %v." [VObj o; VError err];
        EvAddRateLimited TheQueue o]
       (setWorkQueue TheQueue (workqueue.AddRateLimited o (queue s)) s)).
Proof.
  intros Hlt. unfold handleQueueErr. unfold_M. simpl.
  destruct (decide _) as [_|Hge]; [|done]. simpl. f_equal. world_eq.
Qed.

Lemma handleQueueErr_drop err req s :
  (maxRetries ≤ workqueue.NumRequeues (ObjQueueRequest req) (queue s))%nat →
  handleQueueErr (Some err) (ObjQueueRequest req) s =
    (Return (),
     appendTrace
       [EvRecordEventsForQueue (QueueRequest.Name (deref req)) EventTypeWarning
          (QueueRequest.Action (deref req))
          (QueueRequest.Action (deref req) +:+ " queue failed for " +:+ Error err);
        EvKlog (SevInfo 2) "Dropping queue request %v out of the queue for %v."
               [VObj (ObjQueueRequest req); VError err];
        EvForget TheQueue (ObjQueueRequest req)]
       (setWorkQueue TheQueue (workqueue.Forget (ObjQueueRequest req) (queue s)) s)).
Proof.
  intros Hge. unfold handleQueueErr. unfold_M. simpl.
  destruct (decide _) as [Hlt|_]; [lia|]. simpl. f_equal. world_eq.
Qed.

Lemma handleCommandErr_nil o s :
  handleCommandErr None o s =
    (Return (),
     appendTrace [EvForget TheCommandQueue o]
       (setWorkQueue TheCommandQueue (workqueue.Forget o (commandQueue s)) s)).
Proof. reflexivity. Qed.

Lemma handleCommandErr_retry err o s :
  workqueue.NumRequeues o (commandQueue s) < maxRetries →
  handleCommandErr (Some err) o s =
    (Return (),
     appendTrace
       [EvKlog (SevInfo 4) "Error syncing command %v for %v." [VObj o; VError err];
        EvAddRateLimited TheCommandQueue o]
       (setWorkQueue TheCommandQueue (workqueue.AddRateLimited o (commandQueue s)) s)).
Proof.
  intros Hlt. unfold handleCommandErr. unfold_M. simpl.
  destruct (decide _) as [_|Hge]; [|done]. simpl. f_equal. world_eq.
Qed.

Lemma handleCommandErr_drop err o s :
  (maxRetries ≤ workqueue.NumRequeues o (commandQueue s))%nat →
  handleCommandErr (Some err) o s =
    (Return (),
     appendTrace
       [EvKlog (SevInfo 2) "Dropping command %v out of the queue for %v." [VObj o; VError err];
        EvForget TheCommandQueue o]
       (setWorkQueue TheCommandQueue (workqueue.Forget o (commandQueue s)) s)).
Proof.
  intros Hge. unfold handleCommandErr. unfold_M. simpl.
  destruct (decide _) as [Hlt|_]; [lia|]. simpl. f_equal. world_eq.
Qed.

(** *** What [handleCommand] does *)

Lemma handleCommand_ext c c' cmd :
  enqueueQueue c = enqueueQueue c' → handleCommand c cmd = handleCommand c' cmd.
Proof. intros Heq. unfold handleCommand. by rewrite Heq. Qed.

(** The deletion comes back, and leaves one call in the trace. *)
Lemma Commands_Delete_returns namespace name s :
  ∃ result s1,
    Commands_Delete namespace name s = (Return result, s1) ∧
    trace s1 = trace s ++ [EvDelete namespace name result] ∧
    queue s1 = queue s ∧ commandQueue s1 = commandQueue s ∧
    nextAddr s1 = nextAddr s ∧
    commands s1 = match result with
                  | None => commands s ∖ {[(namespace, name)]}
                  | Some _ => commands s
                  end ∧
    (result = None → (namespace, name) ∈ commands s).
Proof.
  unfold Commands_Delete. eexists _, _. split; [reflexivity|]. simpl.
  repeat split; try reflexivity.
  destruct (apiFaults s) as [|[err|] faults]; simpl; try done;
    destruct (decide _); done.
Qed.

Lemma handleCommand_delete_failed c cmd s err s1 :
  Commands_Delete (Command.Namespace (deref cmd)) (Command.Name (deref cmd)) s
    = (Return (Some err), s1) →
  handleCommand c cmd s =
    (Return (if IsNotFound err then None
             else Some (errorString
                    ("failed to delete command <" +:+ Command.Namespace (deref cmd) +:+ "/"
                       +:+ Command.Name (deref cmd) +:+ "> for " +:+ Error err))),
     appendTrace
       [EvKlog (SevInfo 4) "Finished syncing command %s/%s (%v)."
          [VString (Command.Namespace (deref cmd)); VString (Command.Name (deref cmd))]] s1).
Proof.
  intros Hdel. unfold handleCommand. unfold_M. rewrite Hdel.
  destruct (IsNotFound err); reflexivity.
Qed.

Lemma handleCommand_deleted c cmd s s1 target :
  enqueueQueue c = enqueue →
  Commands_Delete (Command.Namespace (deref cmd)) (Command.Name (deref cmd)) s
    = (Return None, s1) →
  Command.TargetObject (deref cmd) = Some target →
  let req := Ptr (nextAddr s1)
               (QueueRequest.mk (OwnerReference.Name target) QueueCommandIssuedEvent
                                (Command.Action (deref cmd))) in
  handleCommand c cmd s =
    (Return None,
     appendTrace
       [EvAdd TheQueue (ObjQueueRequest req);
        EvKlog (SevInfo 4) "Finished syncing command %s/%s (%v)."
          [VString (Command.Namespace (deref cmd)); VString (Command.Name (deref cmd))]]
       (mkWorld (workqueue.Add (ObjQueueRequest req) (queue s1)) (commandQueue s1)
                (queueLister s1) (commands s1) (apiFaults s1) (S (nextAddr s1)) (now s1)
                (trace s1))).
Proof.
  intros Henq Hdel Htarget req. unfold handleCommand. rewrite Henq. unfold_M.
  rewrite Hdel, Htarget. simpl. f_equal. world_eq.
Qed.

Lemma handleCommand_nil_target c cmd s s1 :
  Commands_Delete (Command.Namespace (deref cmd)) (Command.Name (deref cmd)) s
    = (Return None, s1) →
  Command.TargetObject (deref cmd) = None →
  handleCommand c cmd s =
    (Panic nilDereference,
     appendTrace
       [EvKlog (SevInfo 4) "Finished syncing command %s/%s (%v)."
          [VString (Command.Namespace (deref cmd)); VString (Command.Name (deref cmd))]] s1).
Proof.
  intros Hdel Htarget. unfold handleCommand. unfold_M.
  rewrite Hdel, Htarget. reflexivity.
Qed.

(** *** The calls of the error handlers and of [handleCommand] *)

Lemma count_none kind calls :
  Forall (λ e, kind e = false) calls → count kind calls = 0.
Proof.
  unfold count. induction 1 as [|e calls He _ IH]; simpl; [done|]. by rewrite He.
Qed.

Lemma handleQueueErr_calls err req s :
  ∃ calls s',
    handleQueueErr err (ObjQueueRequest req) s = (Return (), s') ∧
    trace s' = trace s ++ calls ∧
    Forall (λ e, isDone e = false) calls.
Proof.
  destruct err as [err|].
  - destruct (decide (workqueue.NumRequeues (ObjQueueRequest req) (queue s) < maxRetries))
      as [Hlt|Hge].
    + eexists _, _. split; [by apply handleQueueErr_retry|]. split; [reflexivity|].
      by repeat constructor.
    + eexists _, _. split; [apply handleQueueErr_drop; lia|]. split; [reflexivity|].
      by repeat constructor.
  - eexists _, _. split; [apply handleQueueErr_nil|]. split; [reflexivity|].
    by repeat constructor.
Qed.

Lemma handleCommandErr_calls err o s :
  ∃ calls s',
    handleCommandErr err o s = (Return (), s') ∧
    trace s' = trace s ++ calls ∧
    Forall (λ e, isDone e = false) calls.
Proof.
  destruct err as [err|].
  - destruct (decide (workqueue.NumRequeues o (commandQueue s) < maxRetries)) as [Hlt|Hge].
    + eexists _, _. split; [by apply handleCommandErr_retry|]. split; [reflexivity|].
      by repeat constructor.
    + eexists _, _. split; [apply handleCommandErr_drop; lia|]. split; [reflexivity|].
      by repeat constructor.
  - eexists _, _. split; [apply handleCommandErr_nil|]. split; [reflexivity|].
    by repeat constructor.
Qed.

(** [handleCommand] returns or panics; its first call is the deletion, and
    [Done] is none of its calls. *)
Lemma handleCommand_calls c cmd s :
  enqueueQueue c = enqueue →
  ∃ r result calls s',
    handleCommand c cmd s = (r, s') ∧
    r ≠ Blocked ∧
    trace s' = trace s
      ++ EvDelete (Command.Namespace (deref cmd)) (Command.Name (deref cmd)) result
      :: calls ∧
    Forall (λ e, isDone e = false) calls.
Proof.
  intros Henq.
  destruct (Commands_Delete_returns (Command.Namespace (deref cmd))
              (Command.Name (deref cmd)) s)
    as (result & s1 & Hdel & Htrace & _).
  destruct result as [err|].
  - eexists _, _, _, _. split; [by eapply handleCommand_delete_failed|].
    split; [done|]. rewrite trace_appendTrace, Htrace, <- app_assoc. simpl.
    split; [reflexivity|]. by repeat constructor.
  - destruct (Command.TargetObject (deref cmd)) as [target|] eqn:Htarget.
    + eexists _, _, _, _. split; [by eapply handleCommand_deleted|].
      split; [done|]. rewrite trace_appendTrace. simpl. rewrite Htrace, <- app_assoc. simpl.
      split; [reflexivity|]. by repeat constructor.
    + eexists _, _, _, _. split; [by eapply handleCommand_nil_target|].
      split; [done|]. rewrite trace_appendTrace, Htrace, <- app_assoc. simpl.
      split; [reflexivity|]. by repeat constructor.
Qed.

(** *** The workers *)

Lemma Get_item q s o w1 :
  workqueue.Get (workQueue q s) = Some (Some o, w1) →
  workqueue.failures w1 = workqueue.failures (workQueue q s) ∧
  workqueue.waitingForAdd w1 = workqueue.waitingForAdd (workQueue q s).
Proof.
  unfold workqueue.Get. destruct (workqueue.queue (workQueue q s)) as [|o' rest].
  - destruct (workqueue.shuttingDown _); intros; simplify_eq.
  - intros; simplify_eq. done.
Qed.

Lemma workQueue_setWorkQueue q w s : workQueue q (setWorkQueue q w s) = w.
Proof. by destruct q. Qed.

Lemma workQueue_appendTrace q calls s : workQueue q (appendTrace calls s) = workQueue q s.
Proof. by destruct q. Qed.

Lemma processNext_wrong_type c q s o w1 :
  workqueue.Get (workQueue q s) = Some (Some o, w1) →
  expectedType q o = false →
  processNext q c s =
    (Return true,
     appendTrace [EvGet q (Some o); EvKlog SevError (notValidFormat q) [VObj o]; EvDone q o]
       (setWorkQueue q (workqueue.Done o w1) s)).
Proof.
  intros Hget Hty.
  destruct q; simpl in *; unfold processNextWorkItem, processNextCommand; unfold_M;
    simpl; rewrite Hget; destruct o; try discriminate; simpl; f_equal; world_eq.
Qed.

(** C10. An item popped from either work queue that is not of the type the
    worker expects (a queue request for the queue worker, a command for the
    command worker) is logged as an error, marked done, and the worker goes
    on with [true]: the calls are [Get], the log line and [Done], so the item
    is neither put back rate-limited nor forgotten (its failure count and the
    set of waiting items stay as they were), and the sync handler is not
    called, whatever handler the controller has. *)
Theorem wrong_type_item_is_logged_and_done c q s o w1 :
  workqueue.Get (workQueue q s) = Some (Some o, w1) →
  expectedType q o = false →
  processNext q c s =
    (Return true,
     appendTrace [EvGet q (Some o); EvKlog SevError (notValidFormat q) [VObj o]; EvDone q o]
       (setWorkQueue q (workqueue.Done o w1) s)) ∧
  workqueue.failures (workQueue q (snd (processNext q c s)))
    = workqueue.failures (workQueue q s) ∧
  workqueue.waitingForAdd (workQueue q (snd (processNext q c s)))
    = workqueue.waitingForAdd (workQueue q s) ∧
  (∀ c', processNext q c' s = processNext q c s) ∧
  (∀ fuel, workerLoop q (S fuel) c s
           = workerLoop q fuel c (snd (processNext q c s))).
Proof.
  intros Hget Hty.
  pose proof (processNext_wrong_type c q s o w1 Hget Hty) as Hrun.
  destruct (Get_item q s o w1 Hget) as [Hfail Hwait].
  split; [exact Hrun|]. rewrite Hrun. simpl.
  rewrite workQueue_appendTrace, workQueue_setWorkQueue.
  split; [|split; [|split]].
  - rewrite <- Hfail. unfold workqueue.Done. by destruct (decide _).
  - rewrite <- Hwait. unfold workqueue.Done. by destruct (decide _).
  - intros c'. by rewrite (processNext_wrong_type c' q s o w1 Hget Hty).
  - intros fuel. destruct q; simpl in *; unfold mbind, M_bind; by rewrite Hrun.
Qed.

Lemma count_isDone_app_none calls1 calls2 :
  Forall (λ e, isDone e = false) calls1 →
  Forall (λ e, isDone e = false) calls2 →
  count isDone (calls1 ++ calls2) = 0.
Proof. intros H1 H2. rewrite count_app, !count_none; done. Qed.

Lemma processNext_shutdown c q s w1 :
  workqueue.Get (workQueue q s) = Some (None, w1) →
  processNext q c s = (Return false, appendTrace [EvGet q None] s).
Proof.
  intros Hget.
  assert (w1 = workQueue q s) as ->.
  { unfold workqueue.Get in Hget.
    destruct (workqueue.queue _); [|simplify_eq].
    destruct (workqueue.shuttingDown _); by simplify_eq. }
  destruct q; simpl in *; unfold processNextWorkItem, processNextCommand; unfold_M;
    simpl; rewrite Hget; simpl; f_equal; destruct s; reflexivity.
Qed.

Lemma processNext_blocked c q s :
  workqueue.Get (workQueue q s) = None →
  processNext q c s = (Blocked, s).
Proof.
  intros Hget.
  destruct q; simpl in *; unfold processNextWorkItem, processNextCommand; unfold_M;
    simpl; by rewrite Hget.
Qed.

Lemma processNextWorkItem_request queueSynced pgSynced cmdSynced s req w1 :
  workqueue.Get (queue s) = Some (Some (ObjQueueRequest req), w1) →
  ∃ calls,
    fst (processNextWorkItem (NewQueueController queueSynced pgSynced cmdSynced) s)
      = Return true ∧
    trace (snd (processNextWorkItem (NewQueueController queueSynced pgSynced cmdSynced) s))
      = trace s ++ EvGet TheQueue (Some (ObjQueueRequest req)) :: calls
          ++ [EvDone TheQueue (ObjQueueRequest req)] ∧
    Forall (λ e, isDone e = false) calls.
Proof.
  intros Hget. unfold processNextWorkItem, mbind, M_bind, Get, defer. simpl.
  rewrite Hget. simpl.
  match goal with |- context [handleQueue req ?s1] =>
    destruct (handleQueue_calls req s1) as (result & calls1 & -> & Hcalls1);
    destruct (handleQueueErr_calls result req (appendTrace calls1 s1))
      as (calls2 & s2 & -> & Htrace2 & Hcalls2)
  end.
  simpl. exists (calls1 ++ calls2). split; [done|]. split.
  - unfold Done. simpl. rewrite Htrace2. simpl. rewrite <- !app_assoc. reflexivity.
  - apply Forall_app. split; [|done].
    eapply Forall_impl; [exact Hcalls1|]. by intros [].
Qed.

Lemma processNextCommand_command queueSynced pgSynced cmdSynced s cmd w1 :
  workqueue.Get (commandQueue s) = Some (Some (ObjCommand cmd), w1) →
  ∃ result calls,
    fst (processNextCommand (NewQueueController queueSynced pgSynced cmdSynced) s)
      ≠ Blocked ∧
    trace (snd (processNextCommand (NewQueueController queueSynced pgSynced cmdSynced) s))
      = trace s ++ EvGet TheCommandQueue (Some (ObjCommand cmd))
          :: (EvDelete (Command.Namespace (deref cmd)) (Command.Name (deref cmd)) result
                :: calls)
          ++ [EvDone TheCommandQueue (ObjCommand cmd)] ∧
    Forall (λ e, isDone e = false) calls.
Proof.
  intros Hget. unfold processNextCommand, mbind, M_bind, Get, defer. simpl.
  rewrite Hget. simpl.
  match goal with |- context [handleCommand ?c cmd ?s1] =>
    destruct (handleCommand_calls c cmd s1 eq_refl)
      as (r & result & calls1 & s2 & -> & Hr & Htrace1 & Hcalls1)
  end.
  exists result.
  destruct r as [err| |]; [| |done].
  - destruct (handleCommandErr_calls err (ObjCommand cmd) s2)
      as (calls2 & s3 & -> & Htrace2 & Hcalls2).
    simpl. exists (calls1 ++ calls2). split; [done|]. split.
    + rewrite Htrace2, Htrace1. simpl. repeat (rewrite <- app_assoc; simpl). reflexivity.
    + by apply Forall_app.
  - simpl. exists calls1. split; [done|]. split; [|done].
    rewrite Htrace1. simpl. rewrite <- !app_assoc. reflexivity.
Qed.

(** C9. Each time [processNextWorkItem] or [processNextCommand] gets an item
    from its queue, [Done] is called on that item exactly once, as the last
    call before the function returns: for an item of the wrong type, for one
    whose processing fails and for one that succeeds.  When [Get] reports
    shutdown the function makes no further call and returns false, which
    ends the worker loop. *)
Theorem Done_exactly_once_per_Get queueSynced pgSynced cmdSynced q s :
  let c := NewQueueController queueSynced pgSynced cmdSynced in
  match workqueue.Get (workQueue q s) with
  | Some (Some o, _) =>
      ∃ calls,
        fst (processNext q c s) ≠ Blocked ∧
        trace (snd (processNext q c s)) = trace s ++ EvGet q (Some o) :: calls ++ [EvDone q o] ∧
        count isDone calls = 0 ∧
        count isDone (EvGet q (Some o) :: calls ++ [EvDone q o]) = 1
  | Some (None, _) =>
      processNext q c s = (Return false, appendTrace [EvGet q None] s) ∧
      count isDone [EvGet q None] = 0 ∧
      ∀ fuel, workerLoop q (S fuel) c s = (Return (Some ()), appendTrace [EvGet q None] s)
  | None => processNext q c s = (Blocked, s)
  end.
Proof.
  intros c.
  destruct (workqueue.Get (workQueue q s)) as [[[o|] w1]|] eqn:Hget.
  - assert (∃ calls,
        fst (processNext q c s) ≠ Blocked ∧
        trace (snd (processNext q c s)) = trace s ++ EvGet q (Some o) :: calls ++ [EvDone q o] ∧
        Forall (λ e, isDone e = false) calls) as (calls & Hret & Htrace & Hcalls).
    { destruct (expectedType q o) eqn:Hty.
      - destruct q, o; try discriminate; simpl in *.
        + destruct (processNextWorkItem_request queueSynced pgSynced cmdSynced s req w1 Hget)
            as (calls & Hret & Htrace & Hcalls).
          exists calls. fold c in Hret, Htrace. rewrite Hret. done.
        + destruct (processNextCommand_command queueSynced pgSynced cmdSynced s cmd w1 Hget)
            as (result & calls & Hret & Htrace & Hcalls).
          eexists. split; [exact Hret|]. split; [exact Htrace|]. by constructor.
      - rewrite (processNext_wrong_type c q s o w1 Hget Hty).
        eexists [_]. split; [done|]. split; [by destruct q|]. by repeat constructor. }
    exists calls. split; [done|]. split; [done|]. split; [by apply count_none|].
    change (EvGet q (Some o) :: calls ++ [EvDone q o])
      with ([EvGet q (Some o)] ++ calls ++ [EvDone q o]).
    rewrite !count_app, (count_none _ calls Hcalls). reflexivity.
  - pose proof (processNext_shutdown c q s w1 Hget) as Hrun.
    split; [done|]. split; [done|].
    intros fuel. destruct q; simpl in *; unfold mbind, M_bind; by rewrite Hrun.
  - by apply processNext_blocked.
Qed.

(** *** Substrings of a formatted message *)

Lemma prefix_append (x s1 s2 : string) :
  String.prefix x s1 = true → String.prefix x (s1 +:+ s2) = true.
Proof.
  revert s1. induction x as [|a x IH]; intros s1; simpl.
  - intros _. by destruct (s1 +:+ s2).
  - destruct s1 as [|b s1]; simpl; [done|].
    destruct (Ascii.ascii_dec a b); [apply IH|done].
Qed.

Lemma prefix_refl (x : string) : String.prefix x x = true.
Proof.
  induction x as [|a x IH]; simpl; [done|]. by destruct (Ascii.ascii_dec a a).
Qed.

Lemma Contains_refl (x : string) : Contains x x = true.
Proof.
  destruct x as [|a x]; [done|].
  change (Contains (String a x) (String a x))
    with (String.prefix (String a x) (String a x) || Contains x (String a x)).
  by rewrite prefix_refl.
Qed.

Lemma Contains_append_l (s1 s2 x : string) :
  Contains s1 x = true → Contains (s1 +:+ s2) x = true.
Proof.
  induction s1 as [|a s1 IH].
  - destruct x as [|b x]; [|done]. intros _. by destruct s2.
  - change (Contains (String a s1) x)
      with (String.prefix x (String a s1) || Contains s1 x).
    change (Contains (String a s1 +:+ s2) x)
      with (String.prefix x (String a s1 +:+ s2) || Contains (s1 +:+ s2) x).
    intros [Hx|Hx]%orb_true_iff; apply orb_true_iff.
    + left. by apply prefix_append.
    + right. by apply IH.
Qed.

Lemma Contains_append_r (s1 s2 x : string) :
  Contains s2 x = true → Contains (s1 +:+ s2) x = true.
Proof.
  intros Hx. induction s1 as [|a s1 IH]; [done|].
  change (Contains (String a s1 +:+ s2) x)
    with (String.prefix x (String a s1 +:+ s2) || Contains (s1 +:+ s2) x).
  apply orb_true_iff. by right.
Qed.

Lemma Contains_middle (s1 s2 x : string) : Contains (s1 +:+ x +:+ s2) x = true.
Proof. apply Contains_append_r, Contains_append_l, Contains_refl. Qed.

Lemma Contains_end (s1 x : string) : Contains (s1 +:+ x) x = true.
Proof. apply Contains_append_r, Contains_refl. Qed.

(** *** Deleted queues, invalid states, wrapped errors *)

Lemma processNextWorkItem_eq queueSynced pgSynced cmdSynced s req w1 result calls :
  workqueue.Get (queue s) = Some (Some (ObjQueueRequest req), w1) →
  (let s1 := emit (EvGet TheQueue (Some (ObjQueueRequest req))) (setWorkQueue TheQueue w1 s) in
   handleQueue req s1 = (Return result, appendTrace calls s1)) →
  processNextWorkItem (NewQueueController queueSynced pgSynced cmdSynced) s =
    defer (Done TheQueue (ObjQueueRequest req))
      (handleQueueErr result (ObjQueueRequest req);; mret true)
      (appendTrace (EvGet TheQueue (Some (ObjQueueRequest req)) :: calls)
         (setWorkQueue TheQueue w1 s)).
Proof.
  intros Hget Hhandle. unfold processNextWorkItem, mbind, M_bind, Get, defer. simpl.
  rewrite Hget. simpl in *. rewrite Hhandle. simpl.
  unfold appendTrace, emit. simpl. rewrite <- !app_assoc. reflexivity.
Qed.

(** C3. For a queue request that names a queue the lister reports as not
    found, [handleQueue] returns nil, and [handleQueueErr] then forgets the
    item: the worker calls [Get], [Forget] and [Done] and never
    [AddRateLimited], the item's requeue count is zero afterwards, and no
    item is added to those that wait to be put back. *)
Theorem not_found_is_success_and_forgotten queueSynced pgSynced cmdSynced s req err w1 :
  queueLister s (QueueRequest.Name (deref req)) = inr err →
  IsNotFound err = true →
  workqueue.Get (queue s) = Some (Some (ObjQueueRequest req), w1) →
  let c := NewQueueController queueSynced pgSynced cmdSynced in
  let o := ObjQueueRequest req in
  fst (handleQueue req s) = Return None ∧
  processNextWorkItem c s =
    (Return true,
     appendTrace
       [EvGet TheQueue (Some o);
        EvKlog (SevInfo 4) "Queue %s has been deleted." [VString (QueueRequest.Name (deref req))];
        EvKlog (SevInfo 4) "Finished syncing queue %s (%v)."
               [VString (QueueRequest.Name (deref req))];
        EvForget TheQueue o;
        EvDone TheQueue o]
       (setWorkQueue TheQueue (workqueue.Done o (workqueue.Forget o w1)) s)) ∧
  count isAddRateLimited (drop (length (trace s)) (trace (snd (processNextWorkItem c s)))) = 0 ∧
  workqueue.NumRequeues o (queue (snd (processNextWorkItem c s))) = 0 ∧
  workqueue.waitingForAdd (queue (snd (processNextWorkItem c s)))
    = workqueue.waitingForAdd (queue s).
Proof.
  intros Hget Hnf Hpop c o.
  assert (processNextWorkItem c s =
    (Return true,
     appendTrace
       [EvGet TheQueue (Some o);
        EvKlog (SevInfo 4) "Queue %s has been deleted." [VString (QueueRequest.Name (deref req))];
        EvKlog (SevInfo 4) "Finished syncing queue %s (%v)."
               [VString (QueueRequest.Name (deref req))];
        EvForget TheQueue o;
        EvDone TheQueue o]
       (setWorkQueue TheQueue (workqueue.Done o (workqueue.Forget o w1)) s))) as Hrun.
  { unfold c. erewrite processNextWorkItem_eq; [|exact Hpop|].
    2:{ eapply handleQueue_not_found; [exact Hget|done]. }
    unfold defer, mbind, M_bind, mret, M_ret. rewrite handleQueueErr_nil.
    unfold Done. simpl. f_equal. world_eq. }
  split; [by rewrite (handleQueue_not_found req s err)|].
  split; [exact Hrun|]. rewrite Hrun. simpl.
  rewrite drop_app_length.
  destruct (Get_item TheQueue s o w1 Hpop) as [Hfail Hwait]. simpl in Hwait.
  split; [reflexivity|]. split.
  - unfold workqueue.NumRequeues, workqueue.Done, workqueue.Forget.
    destruct (decide _); simpl; by rewrite lookup_delete_eq.
  - rewrite <- Hwait. unfold workqueue.Done, workqueue.Forget. by destruct (decide _).
Qed.

(** The decision of [handleQueueErr] does not look at the error: two errors
    leave the work queue in the same state. *)
Lemma handleQueueErr_any_error err err' o s :
  queue (snd (handleQueueErr (Some err) o s)) = queue (snd (handleQueueErr (Some err') o s)) ∧
  count isAddRateLimited (drop (length (trace s)) (trace (snd (handleQueueErr (Some err) o s))))
    = count isAddRateLimited
        (drop (length (trace s)) (trace (snd (handleQueueErr (Some err') o s)))).
Proof.
  unfold handleQueueErr. unfold_M. simpl.
  destruct (decide _); simpl.
  - rewrite <- !app_assoc, !drop_app_length. done.
  - destruct o; simpl; rewrite <- ?app_assoc, ?drop_app_length; done.
Qed.

(** C6. For a queue request whose queue exists but for whose declared state
    [NewState] returns no state object, [handleQueue] returns the error
    saying that the state is invalid, without running the state machine.
    The worker hands this error to [handleQueueErr] as it does any other:
    while the item's requeue count is below [maxRetries] the item is put
    back rate-limited (the whole request runs again later), otherwise it is
    dropped; and a transient error in its place leaves the work queue in the
    same state. *)
Theorem invalid_state_is_retried_like_any_error
    queueSynced pgSynced cmdSynced s req declared w1 transient :
  queueLister s (QueueRequest.Name (deref req)) = inl declared →
  NewState declared = None →
  workqueue.Get (queue s) = Some (Some (ObjQueueRequest req), w1) →
  let c := NewQueueController queueSynced pgSynced cmdSynced in
  let o := ObjQueueRequest req in
  let finished :=
    EvKlog (SevInfo 4) "Finished syncing queue %s (%v)."
           [VString (QueueRequest.Name (deref req))] in
  let invalid :=
    errorString ("queue " +:+ Queue.Name declared +:+ " state "
                   +:+ Queue.Status_State declared +:+ " is invalid") in
  handleQueue req s = (Return (Some invalid), appendTrace [finished] s) ∧
  processNextWorkItem c s =
    defer (Done TheQueue o) (handleQueueErr (Some invalid) o;; mret true)
      (appendTrace [EvGet TheQueue (Some o); finished] (setWorkQueue TheQueue w1 s)) ∧
  (if decide (workqueue.NumRequeues o w1 < maxRetries) then
     processNextWorkItem c s =
       (Return true,
        appendTrace
          [EvGet TheQueue (Some o); finished;
           EvKlog (SevInfo 4) "Error syncing queue request %v for %v." [VObj o; VError invalid];
           EvAddRateLimited TheQueue o;
           EvDone TheQueue o]
          (setWorkQueue TheQueue (workqueue.Done o (workqueue.AddRateLimited o w1)) s))
   else
     processNextWorkItem c s =
       (Return true,
        appendTrace
          [EvGet TheQueue (Some o); finished;
           EvRecordEventsForQueue (QueueRequest.Name (deref req)) EventTypeWarning
             (QueueRequest.Action (deref req))
             (QueueRequest.Action (deref req) +:+ " queue failed for " +:+ Error invalid);
           EvKlog (SevInfo 2) "Dropping queue request %v out of the queue for %v."
                  [VObj o; VError invalid];
           EvForget TheQueue o;
           EvDone TheQueue o]
          (setWorkQueue TheQueue (workqueue.Done o (workqueue.Forget o w1)) s))) ∧
  (∀ s1, queue (snd (handleQueueErr (Some invalid) o s1))
         = queue (snd (handleQueueErr (Some transient) o s1))) ∧
  count isExecute (drop (length (trace s)) (trace (snd (processNextWorkItem c s)))) = 0.
Proof.
  intros Hget Hnew Hpop c o finished invalid.
  assert (processNextWorkItem c s =
    defer (Done TheQueue o) (handleQueueErr (Some invalid) o;; mret true)
      (appendTrace [EvGet TheQueue (Some o); finished] (setWorkQueue TheQueue w1 s)))
    as Hrun.
  { unfold c. eapply processNextWorkItem_eq; [exact Hpop|].
    eapply handleQueue_invalid_state; [exact Hget|done]. }
  assert (if decide (workqueue.NumRequeues o w1 < maxRetries) then
     processNextWorkItem c s =
       (Return true,
        appendTrace
          [EvGet TheQueue (Some o); finished;
           EvKlog (SevInfo 4) "Error syncing queue request %v for %v." [VObj o; VError invalid];
           EvAddRateLimited TheQueue o;
           EvDone TheQueue o]
          (setWorkQueue TheQueue (workqueue.Done o (workqueue.AddRateLimited o w1)) s))
   else
     processNextWorkItem c s =
       (Return true,
        appendTrace
          [EvGet TheQueue (Some o); finished;
           EvRecordEventsForQueue (QueueRequest.Name (deref req)) EventTypeWarning
             (QueueRequest.Action (deref req))
             (QueueRequest.Action (deref req) +:+ " queue failed for " +:+ Error invalid);
           EvKlog (SevInfo 2) "Dropping queue request %v out of the queue for %v."
                  [VObj o; VError invalid];
           EvForget TheQueue o;
           EvDone TheQueue o]
          (setWorkQueue TheQueue (workqueue.Done o (workqueue.Forget o w1)) s))) as Hcases.
  { destruct (decide _) as [Hlt|Hge]; rewrite Hrun; unfold defer, mbind, M_bind, mret, M_ret.
    - rewrite handleQueueErr_retry by done. unfold Done. simpl. f_equal. world_eq.
    - unfold o in *. rewrite handleQueueErr_drop by (simpl; lia).
      unfold Done. simpl. f_equal. world_eq. }
  split; [by apply handleQueue_invalid_state|].
  split; [exact Hrun|]. split; [exact Hcases|].
  split; [intros s1; apply handleQueueErr_any_error|].
  destruct (decide _); rewrite Hcases; simpl; by rewrite drop_app_length.
Qed.

Lemma handleQueue_wrapped req s :
  match queueLister s (QueueRequest.Name (deref req)) with
  | inr err =>
      if IsNotFound err then fst (handleQueue req s) = Return None
      else
        ∃ wrapped,
          fst (handleQueue req s) = Return (Some wrapped) ∧
          Error wrapped = "get queue " +:+ QueueRequest.Name (deref req)
                            +:+ " failed for " +:+ Error err ∧
          Contains (Error wrapped) (QueueRequest.Name (deref req)) = true ∧
          Contains (Error wrapped) (Error err) = true
  | inl declared =>
      match NewState declared with
      | None =>
          ∃ invalid,
            fst (handleQueue req s) = Return (Some invalid) ∧
            Error invalid = "queue " +:+ Queue.Name declared +:+ " state "
                              +:+ Queue.Status_State declared +:+ " is invalid"
      | Some queueState =>
          match Execute queueState (QueueRequest.Action (deref req)) s with
          | Some err =>
              ∃ wrapped,
                fst (handleQueue req s) = Return (Some wrapped) ∧
                Error wrapped = "sync queue " +:+ QueueRequest.Name (deref req)
                                  +:+ " failed for " +:+ Error err
                                  +:+ ", event is " +:+ QueueRequest.Event (deref req)
                                  +:+ ", action is " +:+ QueueRequest.Action (deref req) ∧
                Contains (Error wrapped) (QueueRequest.Name (deref req)) = true ∧
                Contains (Error wrapped) (Error err) = true ∧
                Contains (Error wrapped) (QueueRequest.Action (deref req)) = true
          | None => fst (handleQueue req s) = Return None
          end
      end
  end.
Proof.
  destruct (queueLister s (QueueRequest.Name (deref req))) as [declared|err] eqn:Hget.
  - destruct (NewState declared) as [queueState|] eqn:Hnew.
    + rewrite (handleQueue_execute req s declared queueState Hget Hnew). cbn [fst].
      destruct (Execute queueState (QueueRequest.Action (deref req)) s) as [err|]; [|done].
      eexists. split; [reflexivity|]. cbn [Error]. split; [reflexivity|].
      split; [apply Contains_middle|]. split.
      * apply Contains_append_r, Contains_append_r, Contains_middle.
      * do 7 apply Contains_append_r. apply Contains_refl.
    + rewrite (handleQueue_invalid_state req s declared Hget Hnew). cbn [fst].
      eexists. split; reflexivity.
  - destruct (IsNotFound err) eqn:Hnf.
    + by rewrite (handleQueue_not_found req s err Hget Hnf).
    + rewrite (handleQueue_lookup_error req s err Hget Hnf). cbn [fst].
      eexists. split; [reflexivity|]. cbn [Error]. split; [reflexivity|].
      split; [apply Contains_middle|].
      do 3 apply Contains_append_r. apply Contains_refl.
Qed.

(** C7, as the code has it. In any world, an error from the queue lookup
    (other than not found) comes back from [handleQueue] wrapped with the
    queue name and the cause, and without the action; an error from the
    execution of the state machine comes back wrapped with the queue name, the
    cause, the event and the action.  What [handleQueue] returns for a request
    the worker has taken from the queue is what the worker hands to
    [handleQueueErr]: below [maxRetries] the wrapped error is the one logged
    with the request that is put back, and at [maxRetries] it is the one in
    the message of the event. *)
Theorem handleQueue_wraps_errors queueSynced pgSynced cmdSynced req :
  let Name := QueueRequest.Name (deref req) in
  let Action := QueueRequest.Action (deref req) in
  let c := NewQueueController queueSynced pgSynced cmdSynced in
  let o := ObjQueueRequest req in
  (∀ s,
     match queueLister s Name with
     | inr err =>
         if IsNotFound err then fst (handleQueue req s) = Return None
         else
           ∃ wrapped,
             fst (handleQueue req s) = Return (Some wrapped) ∧
             Error wrapped = "get queue " +:+ Name +:+ " failed for " +:+ Error err ∧
             Contains (Error wrapped) Name = true ∧
             Contains (Error wrapped) (Error err) = true
     | inl declared =>
         match NewState declared with
         | None =>
             ∃ invalid,
               fst (handleQueue req s) = Return (Some invalid) ∧
               Error invalid = "queue " +:+ Queue.Name declared +:+ " state "
                                 +:+ Queue.Status_State declared +:+ " is invalid"
         | Some queueState =>
             match Execute queueState Action s with
             | Some err =>
                 ∃ wrapped,
                   fst (handleQueue req s) = Return (Some wrapped) ∧
                   Error wrapped = "sync queue " +:+ Name +:+ " failed for " +:+ Error err
                                     +:+ ", event is " +:+ QueueRequest.Event (deref req)
                                     +:+ ", action is " +:+ Action ∧
                   Contains (Error wrapped) Name = true ∧
                   Contains (Error wrapped) (Error err) = true ∧
                   Contains (Error wrapped) Action = true
             | None => fst (handleQueue req s) = Return None
             end
         end
     end) ∧
  (∀ s w1,
     workqueue.Get (queue s) = Some (Some o, w1) →
     let s1 := emit (EvGet TheQueue (Some o)) (setWorkQueue TheQueue w1 s) in
     ∃ result calls,
       handleQueue req s1 = (Return result, appendTrace calls s1) ∧
       processNextWorkItem c s =
         defer (Done TheQueue o) (handleQueueErr result o;; mret true)
           (appendTrace (EvGet TheQueue (Some o) :: calls) (setWorkQueue TheQueue w1 s)) ∧
       ∀ wrapped, result = Some wrapped →
         if decide (workqueue.NumRequeues o w1 < maxRetries)%nat then
           EvKlog (SevInfo 4) "Error syncing queue request %v for %v."
                  [VObj o; VError wrapped]
             ∈ trace (snd (processNextWorkItem c s)) ∧
           EvAddRateLimited TheQueue o ∈ trace (snd (processNextWorkItem c s))
         else
           EvRecordEventsForQueue Name "Warning" Action
             (Action +:+ " queue failed for " +:+ Error wrapped)
             ∈ trace (snd (processNextWorkItem c s))).
Proof.
  intros Name Action c o. split; [intros s; apply handleQueue_wrapped|].
  intros s w1 Hpop s1.
  destruct (handleQueue_calls req s1) as (result & calls & Hhandle & _).
  exists result, calls. split; [exact Hhandle|].
  pose proof (processNextWorkItem_eq queueSynced pgSynced cmdSynced s req w1 result calls
                Hpop Hhandle) as Hrun.
  split; [exact Hrun|].
  intros wrapped ->. fold c in Hrun. rewrite Hrun.
  unfold defer, mbind, M_bind, mret, M_ret.
  destruct (decide _) as [Hlt|Hge].
  - rewrite handleQueueErr_retry by done. unfold Done. simpl.
    split; repeat (rewrite elem_of_app || rewrite elem_of_cons); naive_solver.
  - unfold o. rewrite handleQueueErr_drop by (simpl; unfold o in Hge; lia).
    unfold Done. simpl.
    repeat (rewrite elem_of_app || rewrite elem_of_cons); naive_solver.
Qed.

(** C1, as the code has it.  In any world, whatever the command queue holds,
    a queue request whose requeue count has reached [maxRetries] is dropped by
    [handleQueueErr] with a Warning event for the queue it names: the reason
    is the requested action, the message holds the action and the error, and
    the request is forgotten.  In any world, an item of the command queue
    whose requeue count has reached [maxRetries] is dropped by
    [handleCommandErr] with a log line only: it is forgotten and no event is
    recorded. *)
Theorem drop_records_event_for_requests_only :
  (∀ req err s,
     (maxRetries ≤ workqueue.NumRequeues (ObjQueueRequest req) (queue s))%nat →
     let message :=
       QueueRequest.Action (deref req) +:+ " queue failed for " +:+ Error err in
     handleQueueErr (Some err) (ObjQueueRequest req) s =
       (Return (),
        appendTrace
          [EvRecordEventsForQueue (QueueRequest.Name (deref req)) "Warning"
             (QueueRequest.Action (deref req)) message;
           EvKlog (SevInfo 2) "Dropping queue request %v out of the queue for %v."
                  [VObj (ObjQueueRequest req); VError err];
           EvForget TheQueue (ObjQueueRequest req)]
          (setWorkQueue TheQueue (workqueue.Forget (ObjQueueRequest req) (queue s)) s)) ∧
     Contains message (QueueRequest.Action (deref req)) = true ∧
     Contains message (Error err) = true) ∧
  (∀ o err s,
     (maxRetries ≤ workqueue.NumRequeues o (commandQueue s))%nat →
     handleCommandErr (Some err) o s =
       (Return (),
        appendTrace
          [EvKlog (SevInfo 2) "Dropping command %v out of the queue for %v."
                  [VObj o; VError err];
           EvForget TheCommandQueue o]
          (setWorkQueue TheCommandQueue (workqueue.Forget o (commandQueue s)) s)) ∧
     count isRecordEvent
       (drop (length (trace s)) (trace (snd (handleCommandErr (Some err) o s)))) = 0).
Proof.
  split.
  - intros req err s Hreq message.
    split; [by apply handleQueueErr_drop|].
    split; [apply Contains_append_l, Contains_refl|].
    do 2 apply Contains_append_r. apply Contains_refl.
  - intros o err s Hcmd.
    rewrite (handleCommandErr_drop err o s Hcmd).
    split; [reflexivity|]. simpl. by rewrite drop_app_length.
Qed.

(** *** The command filter *)

Lemma FilterFunc_true o :
  FilterFunc cmdEventHandler o = true ↔
  ∃ cmd, o = ObjCommand cmd ∧ IsQueueReference (Command.TargetObject (deref cmd)) = true.
Proof.
  split.
  - destruct o as [req|cmd|repr]; simpl; try done. intros Href. by exists cmd.
  - by intros (cmd & -> & Href).
Qed.

Lemma deliver_cases n s :
  deliver cmdEventHandler n s = (Return (), s) ∨
  ∃ o, FilterFunc cmdEventHandler o = true ∧
       (n = Added o ∨ ∃ oldObj, n = Updated oldObj o) ∧
       deliver cmdEventHandler n s = Add TheCommandQueue o s.
Proof.
  destruct n as [o|oldObj o|o]; simpl; unfold OnAdd, OnUpdate, OnDelete.
  - destruct (FilterFunc cmdEventHandler o) eqn:Hf; simpl; [|by left].
    right. exists o. eauto.
  - destruct (FilterFunc cmdEventHandler o) eqn:Hf;
      destruct (FilterFunc cmdEventHandler oldObj) eqn:Hf'; simpl; try by left.
    right. exists o. eauto.
  - destruct (FilterFunc cmdEventHandler o); simpl; by left.
Qed.

(** C5. Of the objects delivered to the command informer's handler, only a
    Command whose TargetObject [IsQueueReference] accepts reaches
    [addCommand] and so the command queue: an added object is enqueued
    exactly when it is such a command, an updated one when it is such a
    command and the old object was not, and nothing is done for any other
    object.  Whatever is on the command queue after a delivery was there
    before or is such a command, and every [Add] the delivery makes is of
    such a command to the command queue. *)
Theorem only_queue_commands_are_enqueued o oldObj s :
  deliver cmdEventHandler (Added o) s =
    match o with
    | ObjCommand cmd =>
        if IsQueueReference (Command.TargetObject (deref cmd))
        then Add TheCommandQueue o s else (Return (), s)
    | _ => (Return (), s)
    end ∧
  deliver cmdEventHandler (Updated oldObj o) s =
    (if FilterFunc cmdEventHandler o && negb (FilterFunc cmdEventHandler oldObj)
     then Add TheCommandQueue o s else (Return (), s)) ∧
  deliver cmdEventHandler (Deleted o) s = (Return (), s) ∧
  (∀ n item,
     item ∈ workqueue.queue (commandQueue (snd (deliver cmdEventHandler n s))) →
     item ∈ workqueue.queue (commandQueue s) ∨
     ∃ cmd, item = ObjCommand cmd ∧
            IsQueueReference (Command.TargetObject (deref cmd)) = true) ∧
  (∀ n q item,
     EvAdd q item ∈ drop (length (trace s)) (trace (snd (deliver cmdEventHandler n s))) →
     q = TheCommandQueue ∧
     ∃ cmd, item = ObjCommand cmd ∧
            IsQueueReference (Command.TargetObject (deref cmd)) = true) ∧
  (∀ n, queue (snd (deliver cmdEventHandler n s)) = queue s).
Proof.
  split; [|split; [|split; [|split; [|split]]]].
  - simpl. unfold OnAdd. simpl. destruct o as [req|cmd|repr]; simpl; try done.
    by destruct (IsQueueReference _).
  - unfold deliver, OnUpdate.
    destruct (FilterFunc cmdEventHandler o), (FilterFunc cmdEventHandler oldObj); done.
  - simpl. unfold OnDelete. by destruct (FilterFunc cmdEventHandler o).
  - intros n item Hin.
    destruct (deliver_cases n s) as [Hrun|(o' & Hf & _ & Hrun)]; rewrite Hrun in Hin.
    + by left.
    + simpl in Hin. unfold workqueue.Add in Hin.
      destruct (workqueue.shuttingDown _); [by left|].
      destruct (decide _); [by left|].
      destruct (decide _); simpl in Hin; [by left|].
      apply elem_of_app in Hin as [Hin|Hin%list_elem_of_singleton]; [by left|].
      right. subst item. by apply FilterFunc_true.
  - intros n q item Hin.
    destruct (deliver_cases n s) as [Hrun|(o' & Hf & _ & Hrun)]; rewrite Hrun in Hin.
    + simpl in Hin. rewrite drop_all in Hin. by apply elem_of_nil in Hin.
    + simpl in Hin. rewrite drop_app_length in Hin.
      apply list_elem_of_singleton in Hin. simplify_eq.
      split; [done|]. by apply FilterFunc_true.
  - intros n. destruct (deliver_cases n s) as [Hrun|(o' & Hf & _ & Hrun)]; by rewrite Hrun.
Qed.

(** *** Start-up *)

Lemma PollUntil_true condition ticks t0 t :
  PollUntil condition ticks t0 = (true, t) →
  condition t = true ∧ (t0 ≤ t < t0 + ticks)%nat.
Proof.
  revert t0. induction ticks as [|ticks IH]; intros t0; simpl; [done|].
  destruct (condition t0) eqn:Hc.
  - intros; simplify_eq. split; [done|lia].
  - intros [Ht Hrange]%IH. split; [done|lia].
Qed.

Lemma PollUntil_false condition ticks t0 t :
  PollUntil condition ticks t0 = (false, t) →
  ∀ t', (t0 ≤ t' < t0 + ticks)%nat → condition t' = false.
Proof.
  revert t0. induction ticks as [|ticks IH]; intros t0; simpl; [intros; lia|].
  destruct (condition t0) eqn:Hc; [done|].
  intros Hpoll t' Ht'. destruct (decide (t' = t0)) as [->|Hne]; [done|].
  apply (IH (S t0)); [done|lia].
Qed.

(** C8. [Run] starts the two worker loops only after [WaitForCacheSync]
    has answered true, which it does at a time before the stop channel is
    closed at which the queue, podgroup and command caches have all synced;
    the informers are started before the wait.  If the wait fails, at no
    time before the stop have the three caches all synced, [Run] logs the
    failure and returns, and no worker is started. *)
Theorem workers_start_only_after_cache_sync c stopCh s :
  ∃ synced calls,
    fst (WaitForCacheSync stopCh [queueSynced c; pgSynced c; cmdSynced c] s)
      = Return synced ∧
    fst (Run c stopCh s) = Return () ∧
    trace (snd (Run c stopCh s)) = trace s ++ calls ∧
    if synced then
      ∃ t, (now s < t < stopCh)%nat ∧
           queueSynced c t = true ∧ pgSynced c t = true ∧ cmdSynced c t = true ∧
           calls =
             [EvKlog (SevInfo 0) "Starting queue controller." [];
              EvGo (InformerRun QueueInformer) (now s);
              EvGo (InformerRun PodGroupInformer) (now s);
              EvGo (InformerRun CommandInformer) (now s);
              EvGo UntilWorker t;
              EvGo UntilCommandWorker t;
              EvKlog (SevInfo 0) "Shutting down queue controller." [];
              EvShutDown TheCommandQueue;
              EvShutDown TheQueue;
              EvHandleCrash] ∧
           count isWorkerStart calls = 2
    else
      (∀ t, (now s < t < stopCh)%nat → allSynced c t = false) ∧
      calls =
        [EvKlog (SevInfo 0) "Starting queue controller." [];
         EvGo (InformerRun QueueInformer) (now s);
         EvGo (InformerRun PodGroupInformer) (now s);
         EvGo (InformerRun CommandInformer) (now s);
         EvKlog SevError "unable to sync caches for queue controller." [];
         EvKlog (SevInfo 0) "Shutting down queue controller." [];
         EvShutDown TheCommandQueue;
         EvShutDown TheQueue;
         EvHandleCrash] ∧
      count isWorkerStart calls = 0.
Proof.
  unfold Run, WaitForCacheSync. unfold_M. simpl.
  destruct (PollUntil _ (stopCh - S (now s)) (S (now s))) as [synced t] eqn:Hpoll.
  exists synced. destruct synced; simpl.
  - eexists. split; [done|]. split; [done|].
    split; [repeat (rewrite <- app_assoc; simpl); reflexivity|].
    apply PollUntil_true in Hpoll as [Hcond Hrange].
    apply andb_true_iff in Hcond as [Hq Hcond].
    apply andb_true_iff in Hcond as [Hp Hcond].
    apply andb_true_iff in Hcond as [Hc _].
    exists t. repeat split; try done; lia.
  - eexists. split; [done|]. split; [done|].
    split; [repeat (rewrite <- app_assoc; simpl); reflexivity|].
    split; [|done].
    intros t' Ht'. pose proof (PollUntil_false _ _ _ _ Hpoll t') as Hcond.
    simpl in Hcond. unfold allSynced. rewrite andb_true_r in Hcond.
    rewrite <- andb_assoc. apply Hcond. lia.
Qed.

(** *** Commands *)



(** *** The retry cap *)

Lemma Get_queuedAlone o k w :
  queuedAlone o k w →
  workqueue.Get w =
    Some (Some o,
          workqueue.mk [] (workqueue.dirty w ∖ {[o]}) ({[o]} ∪ workqueue.processing w)
            (workqueue.shuttingDown w) (workqueue.waitingForAdd w) (workqueue.failures w)).
Proof. intros (Hq & _). unfold workqueue.Get. by rewrite Hq. Qed.

(** The item fails below the cap: it is put back rate-limited, marked done,
    and after its delay it is queued again, with one more failure. *)
Lemma retry_round o k w w1 :
  queuedAlone o k w →
  workqueue.Get w = Some (Some o, w1) →
  queuedAlone o (S k)
    (workqueue.ready o (workqueue.Done o (workqueue.AddRateLimited o w1))).
Proof.
  intros Halone Hget. pose proof Halone as (Hq & Hproc & Hwait & Hsd & Hnum).
  rewrite (Get_queuedAlone o k w Halone) in Hget. simplify_eq.
  unfold workqueue.AddRateLimited, workqueue.AddAfter, workqueue.When. simpl.
  rewrite Hsd. unfold workqueue.Done. simpl.
  rewrite decide_False by set_solver. unfold workqueue.ready. simpl.
  rewrite decide_True by set_solver. unfold workqueue.Add. simpl.
  rewrite decide_False by set_solver. rewrite decide_False by set_solver.
  unfold queuedAlone, workqueue.NumRequeues. simpl.
  rewrite lookup_insert_eq. simpl.
  split; [done|]. split; [set_solver|]. split; [set_solver|]. done.
Qed.

(** The item fails at the cap: it is forgotten and marked done, and is
    neither queued nor waiting afterwards. *)
Lemma drop_round o k w w1 :
  queuedAlone o k w →
  workqueue.Get w = Some (Some o, w1) →
  dropped o (workqueue.ready o (workqueue.Done o (workqueue.Forget o w1))).
Proof.
  intros Halone Hget. pose proof Halone as (Hq & Hproc & Hwait & Hsd & Hnum).
  rewrite (Get_queuedAlone o k w Halone) in Hget. simplify_eq.
  unfold workqueue.Forget, workqueue.Done. simpl.
  rewrite decide_False by set_solver. unfold workqueue.ready. simpl.
  rewrite decide_False by done.
  unfold dropped, workqueue.NumRequeues. simpl.
  by rewrite lookup_delete_eq.
Qed.

Lemma count_log_or_execute kind calls :
  (∀ sev format args, kind (EvKlog sev format args) = false) →
  (∀ q action result, kind (EvExecute q action result) = false) →
  Forall (λ e, match e with EvKlog _ _ _ | EvExecute _ _ _ => True | _ => False end) calls →
  count kind calls = 0.
Proof.
  intros Hlog Hexec Hcalls. apply count_none.
  eapply Forall_impl; [exact Hcalls|]. intros []; simpl; try done.
Qed.

Section AlwaysFailing.

Variables queueSynced pgSynced cmdSynced : InformerSynced.
Variable req : ptr QueueRequest.t.
Variable s0 : World.

Let c := NewQueueController queueSynced pgSynced cmdSynced.
Let o := ObjQueueRequest req.

(** Processing the request fails whatever else changes, as long as the
    lister answers as it does in [s0]. *)
Hypothesis always_fails :
  ∀ s, queueLister s = queueLister s0 → fst (handleQueue req s) ≠ Return None.

Lemma attempt_retries k s :
  queueLister s = queueLister s0 →
  queuedAlone o k (queue s) →
  (k < maxRetries)%nat →
  ∃ calls s',
    attempt c o s = (Return true, s') ∧
    trace s' = trace s ++ calls ∧
    queueLister s' = queueLister s0 ∧
    queuedAlone o (S k) (queue s') ∧
    count isAddRateLimited calls = 1 ∧
    count isForget calls = 0 ∧
    count isRecordEvent calls = 0.
Proof.
  intros Hlister Halone Hlt.
  pose proof (Get_queuedAlone o k (queue s) Halone) as Hget.
  set (w1 := workqueue.mk _ _ _ _ _ _) in Hget.
  set (s1 := emit (EvGet TheQueue (Some o)) (setWorkQueue TheQueue w1 s)).
  destruct (handleQueue_calls req s1) as (result & calls & Hhandle & Hcalls).
  destruct result as [err|]; [|by destruct (always_fails s1 Hlister); rewrite Hhandle].
  unfold attempt, mbind, M_bind.
  unfold c. rewrite (processNextWorkItem_eq _ _ _ s req w1 (Some err) calls Hget Hhandle).
  unfold defer, mbind, M_bind, mret, M_ret.
  rewrite handleQueueErr_retry;
    [|destruct Halone as (_ & _ & _ & _ & Hnum);
      change (workqueue.NumRequeues o (queue s) < maxRetries)%nat; by rewrite Hnum].
  unfold Done, delayPasses. simpl.
  eexists _, _. split; [reflexivity|]. simpl.
  split; [repeat (rewrite <- app_assoc; simpl); reflexivity|].
  split; [done|]. split; [by eapply retry_round|].
  change (EvGet TheQueue (Some (ObjQueueRequest req)) :: calls ++ ?l)
    with ([EvGet TheQueue (Some (ObjQueueRequest req))] ++ calls ++ l).
  rewrite !count_app, !(count_log_or_execute _ calls); done.
Qed.

Lemma attempt_drops k s :
  queueLister s = queueLister s0 →
  queuedAlone o k (queue s) →
  (maxRetries ≤ k)%nat →
  ∃ calls s',
    attempt c o s = (Return true, s') ∧
    trace s' = trace s ++ calls ∧
    dropped o (queue s') ∧
    count isAddRateLimited calls = 0 ∧
    count isForget calls = 1 ∧
    count isRecordEvent calls = 1.
Proof.
  intros Hlister Halone Hge.
  pose proof (Get_queuedAlone o k (queue s) Halone) as Hget.
  set (w1 := workqueue.mk _ _ _ _ _ _) in Hget.
  set (s1 := emit (EvGet TheQueue (Some o)) (setWorkQueue TheQueue w1 s)).
  destruct (handleQueue_calls req s1) as (result & calls & Hhandle & Hcalls).
  destruct result as [err|]; [|by destruct (always_fails s1 Hlister); rewrite Hhandle].
  unfold attempt, mbind, M_bind.
  unfold c. rewrite (processNextWorkItem_eq _ _ _ s req w1 (Some err) calls Hget Hhandle).
  unfold defer, mbind, M_bind, mret, M_ret.
  rewrite handleQueueErr_drop;
    [|destruct Halone as (_ & _ & _ & _ & Hnum);
      change (maxRetries ≤ workqueue.NumRequeues o (queue s))%nat; by rewrite Hnum].
  unfold Done, delayPasses. simpl.
  eexists _, _. split; [reflexivity|]. simpl.
  split; [repeat (rewrite <- app_assoc; simpl); reflexivity|].
  split; [by eapply drop_round|].
  change (EvGet TheQueue (Some (ObjQueueRequest req)) :: calls ++ ?l)
    with ([EvGet TheQueue (Some (ObjQueueRequest req))] ++ calls ++ l).
  rewrite !count_app, !(count_log_or_execute _ calls); done.
Qed.

Lemma attempts_below_cap n k s :
  queueLister s = queueLister s0 →
  queuedAlone o k (queue s) →
  (k + n ≤ maxRetries)%nat →
  ∃ calls s',
    attempts n c o s = (Return (), s') ∧
    trace s' = trace s ++ calls ∧
    queueLister s' = queueLister s0 ∧
    queuedAlone o (k + n) (queue s') ∧
    count isAddRateLimited calls = n ∧
    count isForget calls = 0 ∧
    count isRecordEvent calls = 0.
Proof.
  revert k s. induction n as [|n IH]; intros k s Hlister Halone Hle.
  { exists [], s. rewrite app_nil_r, Nat.add_0_r. done. }
  destruct (attempt_retries k s Hlister Halone ltac:(lia))
    as (calls1 & s1 & Hrun1 & Htrace1 & Hlister1 & Halone1 & Hadd1 & Hforget1 & Hrec1).
  destruct (IH (S k) s1 Hlister1 Halone1 ltac:(lia))
    as (calls2 & s2 & Hrun2 & Htrace2 & Hlister2 & Halone2 & Hadd2 & Hforget2 & Hrec2).
  exists (calls1 ++ calls2), s2. simpl. unfold mbind, M_bind. rewrite Hrun1, Hrun2.
  split; [done|]. split; [by rewrite Htrace2, Htrace1, app_assoc|].
  split; [done|]. split; [by replace (k + S n)%nat with (S k + n)%nat by lia|].
  rewrite !count_app. lia.
Qed.

Lemma attempts_to_the_drop s :
  queueLister s = queueLister s0 →
  queuedAlone o 0 (queue s) →
  ∃ calls s',
    attempts (S maxRetries) c o s = (Return (), s') ∧
    trace s' = trace s ++ calls ∧
    dropped o (queue s') ∧
    count isAddRateLimited calls = maxRetries ∧
    count isForget calls = 1 ∧
    count isRecordEvent calls = 1.
Proof.
  intros Hlister Halone.
  assert (∀ n k s1,
    queueLister s1 = queueLister s0 → queuedAlone o k (queue s1) →
    (k + n = maxRetries)%nat →
    ∃ calls s',
      attempts (S n) c o s1 = (Return (), s') ∧
      trace s' = trace s1 ++ calls ∧
      dropped o (queue s') ∧
      count isAddRateLimited calls = n ∧
      count isForget calls = 1 ∧
      count isRecordEvent calls = 1) as Hgen.
  { induction n as [|n IH]; intros k s1 Hlister1 Halone1 Hk.
    - destruct (attempt_drops k s1 Hlister1 Halone1 ltac:(lia))
        as (calls1 & s2 & Hrun1 & Htrace1 & Hdropped & Hadd1 & Hforget1 & Hrec1).
      exists calls1, s2. simpl. unfold mbind, M_bind. rewrite Hrun1. done.
    - destruct (attempt_retries k s1 Hlister1 Halone1 ltac:(lia))
        as (calls1 & s2 & Hrun1 & Htrace1 & Hlister2 & Halone2 & Hadd1 & Hforget1 & Hrec1).
      destruct (IH (S k) s2 Hlister2 Halone2 ltac:(lia))
        as (calls2 & s3 & Hrun2 & Htrace2 & Hdropped & Hadd2 & Hforget2 & Hrec2).
      exists (calls1 ++ calls2), s3.
      change (attempts (S (S n)) c o s1)
        with ((attempt c o;; attempts (S n) c o) s1).
      unfold mbind at 1. unfold M_bind at 1. rewrite Hrun1, Hrun2.
      split; [done|]. split; [by rewrite Htrace2, Htrace1, app_assoc|].
      split; [done|]. rewrite !count_app. lia. }
  by apply (Hgen maxRetries 0 s).
Qed.

End AlwaysFailing.

Lemma queuedAlone_fresh o :
  queuedAlone o 0 (workqueue.Add o workqueue.NewRateLimitingQueue).
Proof.
  unfold workqueue.Add. simpl.
  rewrite decide_False by set_solver. rewrite decide_False by set_solver.
  unfold queuedAlone, workqueue.NumRequeues. simpl.
  rewrite lookup_empty. repeat split; set_solver.
Qed.

(** *** Failures in a row, in any world *)

Lemma NumRequeues_AddRateLimited o w :
  workqueue.NumRequeues o (workqueue.AddRateLimited o w) = S (workqueue.NumRequeues o w).
Proof.
  unfold workqueue.AddRateLimited, workqueue.AddAfter, workqueue.When. simpl.
  destruct (workqueue.shuttingDown w); unfold workqueue.NumRequeues; simpl;
    by rewrite lookup_insert_eq.
Qed.

Lemma NumRequeues_Forget o w :
  workqueue.NumRequeues o (workqueue.Forget o w) = 0.
Proof. unfold workqueue.NumRequeues, workqueue.Forget. simpl. by rewrite lookup_delete_eq. Qed.

Lemma trace_setWorkQueue q w s : trace (setWorkQueue q w s) = trace s.
Proof. by destruct q. Qed.

(** A retry decision that puts the item back below [maxRetries] and forgets
    it from [maxRetries] on, with [events] events at the drop, puts it back
    once per failure up to [maxRetries] failures and drops it at the next,
    whatever happens in between that leaves the item's count alone. *)
Lemma failuresInARow_counts handleErr q o events :
  (∀ err s,
     (workqueue.NumRequeues o (workQueue q s) < maxRetries)%nat →
     ∃ calls,
       handleErr (Some err) o s =
         (Return (),
          appendTrace calls
            (setWorkQueue q (workqueue.AddRateLimited o (workQueue q s)) s)) ∧
       count isAddRateLimited calls = 1 ∧ count isForget calls = 0 ∧
       count isRecordEvent calls = 0) →
  (∀ err s,
     (maxRetries ≤ workqueue.NumRequeues o (workQueue q s))%nat →
     ∃ calls,
       handleErr (Some err) o s =
         (Return (),
          appendTrace calls (setWorkQueue q (workqueue.Forget o (workQueue q s)) s)) ∧
       count isAddRateLimited calls = 0 ∧ count isForget calls = 1 ∧
       count isRecordEvent calls = events) →
  ∀ between errs s,
    workqueue.NumRequeues o (workQueue q s) = 0 →
    (∀ i s1, workqueue.NumRequeues o (workQueue q (between i s1))
             = workqueue.NumRequeues o (workQueue q s1)) →
    (∀ k, (k ≤ maxRetries)%nat →
       count isAddRateLimited (fst (failuresInARow handleErr between errs o k s)) = k ∧
       count isForget (fst (failuresInARow handleErr between errs o k s)) = 0 ∧
       count isRecordEvent (fst (failuresInARow handleErr between errs o k s)) = 0 ∧
       workqueue.NumRequeues o
         (workQueue q (snd (failuresInARow handleErr between errs o k s))) = k) ∧
    count isAddRateLimited (fst (failuresInARow handleErr between errs o (S maxRetries) s))
      = maxRetries ∧
    count isForget (fst (failuresInARow handleErr between errs o (S maxRetries) s)) = 1 ∧
    count isRecordEvent (fst (failuresInARow handleErr between errs o (S maxRetries) s))
      = events ∧
    workqueue.NumRequeues o
      (workQueue q (snd (failuresInARow handleErr between errs o (S maxRetries) s))) = 0.
Proof.
  intros Hretry Hdrop between errs s Hfresh Hbetween.
  assert (∀ k, (k ≤ maxRetries)%nat →
       count isAddRateLimited (fst (failuresInARow handleErr between errs o k s)) = k ∧
       count isForget (fst (failuresInARow handleErr between errs o k s)) = 0 ∧
       count isRecordEvent (fst (failuresInARow handleErr between errs o k s)) = 0 ∧
       workqueue.NumRequeues o
         (workQueue q (snd (failuresInARow handleErr between errs o k s))) = k) as Hbelow.
  { induction k as [|k IH]; intros Hk; [done|].
    destruct IH as (Hadd & Hforget & Hrec & Hnum); [lia|].
    cbn [failuresInARow].
    destruct (failuresInARow handleErr between errs o k s) as [calls s1].
    cbn [fst snd] in *.
    destruct (Hretry (errs k) (between k s1)) as (calls' & Hrun & Hadd' & Hforget' & Hrec').
    { rewrite Hbetween, Hnum. lia. }
    rewrite Hrun. cbn [fst snd].
    rewrite trace_appendTrace, trace_setWorkQueue, drop_app_length.
    rewrite workQueue_appendTrace, workQueue_setWorkQueue, NumRequeues_AddRateLimited.
    rewrite Hbetween, Hnum, !count_app. lia. }
  split; [exact Hbelow|].
  destruct (Hbelow maxRetries ltac:(lia)) as (Hadd & Hforget & Hrec & Hnum).
  cbn [failuresInARow].
  destruct (failuresInARow handleErr between errs o maxRetries s) as [calls s1].
  cbn [fst snd] in *.
  destruct (Hdrop (errs maxRetries) (between maxRetries s1))
    as (calls' & Hrun & Hadd' & Hforget' & Hrec').
  { rewrite Hbetween, Hnum. lia. }
  rewrite Hrun. cbn [fst snd].
  rewrite trace_appendTrace, trace_setWorkQueue, drop_app_length.
  rewrite workQueue_appendTrace, workQueue_setWorkQueue, NumRequeues_Forget.
  rewrite !count_app. lia.
Qed.

Lemma handleQueueErr_decides err req s :
  handleQueueErr (Some err) (ObjQueueRequest req) s =
    if decide (workqueue.NumRequeues (ObjQueueRequest req) (queue s) < maxRetries)%nat then
      (Return (),
       appendTrace
         [EvKlog (SevInfo 4) "Error syncing queue request %v for %v."
                 [VObj (ObjQueueRequest req); VError err];
          EvAddRateLimited TheQueue (ObjQueueRequest req)]
         (setWorkQueue TheQueue
            (workqueue.AddRateLimited (ObjQueueRequest req) (queue s)) s))
    else
      (Return (),
       appendTrace
         [EvRecordEventsForQueue (QueueRequest.Name (deref req)) EventTypeWarning
            (QueueRequest.Action (deref req))
            (QueueRequest.Action (deref req) +:+ " queue failed for " +:+ Error err);
          EvKlog (SevInfo 2) "Dropping queue request %v out of the queue for %v."
                 [VObj (ObjQueueRequest req); VError err];
          EvForget TheQueue (ObjQueueRequest req)]
         (setWorkQueue TheQueue (workqueue.Forget (ObjQueueRequest req) (queue s)) s)).
Proof.
  destruct (decide _) as [Hlt|Hge].
  - by apply handleQueueErr_retry.
  - apply handleQueueErr_drop. lia.
Qed.

Lemma handleCommandErr_decides err o s :
  handleCommandErr (Some err) o s =
    if decide (workqueue.NumRequeues o (commandQueue s) < maxRetries)%nat then
      (Return (),
       appendTrace
         [EvKlog (SevInfo 4) "Error syncing command %v for %v." [VObj o; VError err];
          EvAddRateLimited TheCommandQueue o]
         (setWorkQueue TheCommandQueue (workqueue.AddRateLimited o (commandQueue s)) s))
    else
      (Return (),
       appendTrace
         [EvKlog (SevInfo 2) "Dropping command %v out of the queue for %v."
                 [VObj o; VError err];
          EvForget TheCommandQueue o]
         (setWorkQueue TheCommandQueue (workqueue.Forget o (commandQueue s)) s)).
Proof.
  destruct (decide _) as [Hlt|Hge].
  - by apply handleCommandErr_retry.
  - apply handleCommandErr_drop. lia.
Qed.

(** C4. [maxRetries] is 15.  In any world, whatever else is queued, waiting
    or counted, [handleQueueErr] decides on the request's requeue count
    alone: below [maxRetries] it puts the request back rate-limited, which
    adds one to the count, and from [maxRetries] on it drops and forgets it.
    So for a request whose count is zero and whose processing keeps failing,
    whatever happens between the failures that leaves its count alone, the
    first [k] ≤ 15 failures put it back [k] times, and the sixteenth drops it:
    it has been put back exactly 15 times, forgotten once, with one event, and
    its count is zero again.  In the worker, for a request that is the one
    queued: after 16 attempts it is neither queued nor waiting, and the next
    [Get] waits, so no further attempt is made on it. *)
Theorem always_failing_request_is_retried_maxRetries_times
    queueSynced pgSynced cmdSynced req :
  let c := NewQueueController queueSynced pgSynced cmdSynced in
  let o := ObjQueueRequest req in
  maxRetries = 15 ∧
  (∀ err s,
     handleQueueErr (Some err) o s =
       if decide (workqueue.NumRequeues o (queue s) < maxRetries)%nat then
         (Return (),
          appendTrace
            [EvKlog (SevInfo 4) "Error syncing queue request %v for %v." [VObj o; VError err];
             EvAddRateLimited TheQueue o]
            (setWorkQueue TheQueue (workqueue.AddRateLimited o (queue s)) s))
       else
         (Return (),
          appendTrace
            [EvRecordEventsForQueue (QueueRequest.Name (deref req)) EventTypeWarning
               (QueueRequest.Action (deref req))
               (QueueRequest.Action (deref req) +:+ " queue failed for " +:+ Error err);
             EvKlog (SevInfo 2) "Dropping queue request %v out of the queue for %v."
                    [VObj o; VError err];
             EvForget TheQueue o]
            (setWorkQueue TheQueue (workqueue.Forget o (queue s)) s))) ∧
  (∀ w, workqueue.NumRequeues o (workqueue.AddRateLimited o w)
        = S (workqueue.NumRequeues o w)) ∧
  (∀ between errs s,
     workqueue.NumRequeues o (queue s) = 0 →
     (∀ i s1, workqueue.NumRequeues o (queue (between i s1))
              = workqueue.NumRequeues o (queue s1)) →
     (∀ k, (k ≤ maxRetries)%nat →
        count isAddRateLimited (fst (failuresInARow handleQueueErr between errs o k s)) = k ∧
        count isForget (fst (failuresInARow handleQueueErr between errs o k s)) = 0 ∧
        count isRecordEvent (fst (failuresInARow handleQueueErr between errs o k s)) = 0 ∧
        workqueue.NumRequeues o
          (queue (snd (failuresInARow handleQueueErr between errs o k s))) = k) ∧
     count isAddRateLimited
       (fst (failuresInARow handleQueueErr between errs o (S maxRetries) s)) = maxRetries ∧
     count isForget
       (fst (failuresInARow handleQueueErr between errs o (S maxRetries) s)) = 1 ∧
     count isRecordEvent
       (fst (failuresInARow handleQueueErr between errs o (S maxRetries) s)) = 1 ∧
     workqueue.NumRequeues o
       (queue (snd (failuresInARow handleQueueErr between errs o (S maxRetries) s))) = 0) ∧
  (∀ s,
     queuedAlone o 0 (queue s) →
     (∀ s1, queueLister s1 = queueLister s → fst (handleQueue req s1) ≠ Return None) →
     (∀ n, (n ≤ maxRetries)%nat →
        ∃ calls s',
          attempts n c o s = (Return (), s') ∧
          trace s' = trace s ++ calls ∧
          queuedAlone o n (queue s') ∧
          count isAddRateLimited calls = n ∧
          count isForget calls = 0 ∧
          count isRecordEvent calls = 0) ∧
     (∃ calls s',
        attempts (S maxRetries) c o s = (Return (), s') ∧
        trace s' = trace s ++ calls ∧
        dropped o (queue s') ∧
        count isAddRateLimited calls = maxRetries ∧
        count isForget calls = 1 ∧
        count isRecordEvent calls = 1 ∧
        processNextWorkItem c s' = (Blocked, s') ∧
        ∀ n, attempts (S n) c o s' = (Blocked, s'))).
Proof.
  intros c o. split; [reflexivity|].
  split; [intros err s; apply handleQueueErr_decides|].
  split; [intros w; apply NumRequeues_AddRateLimited|].
  split.
  - intros between errs s Hfresh Hbetween.
    apply (failuresInARow_counts handleQueueErr TheQueue o 1); try done.
    + intros err s1 Hlt. eexists. split; [by apply handleQueueErr_retry|done].
    + intros err s1 Hge. eexists. split; [by apply handleQueueErr_drop|done].
  - intros s Halone Hfails. split.
    + intros n Hn.
      destruct (attempts_below_cap queueSynced pgSynced cmdSynced req s Hfails
                  n 0 s eq_refl Halone ltac:(lia))
        as (calls & s' & Hrun & Htrace & _ & Halone' & Hcounts).
      exists calls, s'. done.
    + destruct (attempts_to_the_drop queueSynced pgSynced cmdSynced req s Hfails
                  s eq_refl Halone)
        as (calls & s' & Hrun & Htrace & Hdropped & Hadd & Hforget & Hrec).
      exists calls, s'. repeat (split; [done|]).
      assert (processNextWorkItem c s' = (Blocked, s')) as Hblocked.
      { apply (processNext_blocked c TheQueue). simpl.
        destruct Hdropped as (Hq & _ & Hsd & _). unfold workqueue.Get. by rewrite Hq, Hsd. }
      split; [done|].
      intros n. simpl. unfold attempt, mbind, M_bind. by rewrite Hblocked.
Qed.

(** ** More of the workers *)

Lemma processNextCommand_eq queueSynced pgSynced cmdSynced s cmd w1 result s2 :
  workqueue.Get (commandQueue s) = Some (Some (ObjCommand cmd), w1) →
  handleCommand (NewQueueController queueSynced pgSynced cmdSynced) cmd
    (emit (EvGet TheCommandQueue (Some (ObjCommand cmd))) (setWorkQueue TheCommandQueue w1 s))
    = (Return result, s2) →
  processNextCommand (NewQueueController queueSynced pgSynced cmdSynced) s =
    defer (Done TheCommandQueue (ObjCommand cmd))
      (handleCommandErr result (ObjCommand cmd);; mret true) s2.
Proof.
  intros Hget Hhandle.
  rewrite (handleCommand_ext _
             (mkController queueSynced pgSynced cmdSynced handleQueue (λ _, mret None) enqueue))
    in Hhandle by reflexivity.
  unfold processNextCommand, mbind, M_bind, Get, defer. simpl.
  rewrite Hget. simpl in *. by rewrite Hhandle.
Qed.

Lemma processNextCommand_panic queueSynced pgSynced cmdSynced s cmd w1 msg s2 :
  workqueue.Get (commandQueue s) = Some (Some (ObjCommand cmd), w1) →
  handleCommand (NewQueueController queueSynced pgSynced cmdSynced) cmd
    (emit (EvGet TheCommandQueue (Some (ObjCommand cmd))) (setWorkQueue TheCommandQueue w1 s))
    = (Panic msg, s2) →
  processNextCommand (NewQueueController queueSynced pgSynced cmdSynced) s =
    (Panic msg, snd (Done TheCommandQueue (ObjCommand cmd) s2)).
Proof.
  intros Hget Hhandle.
  rewrite (handleCommand_ext _
             (mkController queueSynced pgSynced cmdSynced handleQueue (λ _, mret None) enqueue))
    in Hhandle by reflexivity.
  unfold processNextCommand, mbind, M_bind, Get, defer. simpl.
  rewrite Hget. simpl in *. by rewrite Hhandle.
Qed.

(** What [handleCommand] answers: nil, a wrapped error, or the panic of the
    nil target after a deletion that succeeded. *)
Lemma handleCommand_outcome c cmd s :
  enqueueQueue c = enqueue →
  ∃ s',
    (∃ result, handleCommand c cmd s = (Return result, s')) ∨
    (handleCommand c cmd s = (Panic nilDereference, s') ∧
     Command.TargetObject (deref cmd) = None ∧
     fst (Commands_Delete (Command.Namespace (deref cmd)) (Command.Name (deref cmd)) s)
       = Return None).
Proof.
  intros Henq.
  destruct (Commands_Delete_returns (Command.Namespace (deref cmd))
              (Command.Name (deref cmd)) s) as (result & s1 & Hdel & _).
  destruct result as [err|].
  - eexists. left. eexists. by eapply handleCommand_delete_failed.
  - destruct (Command.TargetObject (deref cmd)) as [target|] eqn:Htarget.
    + eexists. left. eexists. by eapply handleCommand_deleted.
    + eexists. right. split; [by eapply handleCommand_nil_target|]. by rewrite Hdel.
Qed.

(** X4. If [IsQueueReference] rejects the nil reference, a command that the
    filter of the command informer admits has a target, so handling it never
    panics: [handleCommand] returns nil or an error. *)
Theorem admitted_command_is_handled_without_panic c cmd s :
  IsQueueReference None = false →
  enqueueQueue c = enqueue →
  FilterFunc cmdEventHandler (ObjCommand cmd) = true →
  (∃ target, Command.TargetObject (deref cmd) = Some target) ∧
  ∃ result, fst (handleCommand c cmd s) = Return result.
Proof.
  intros Hnil Henq Hadmitted. simpl in Hadmitted.
  destruct (Command.TargetObject (deref cmd)) as [target|] eqn:Htarget;
    [|by rewrite Hnil in Hadmitted].
  split; [by exists target|].
  destruct (handleCommand_outcome c cmd s Henq)
    as (s' & [(result & Hrun)|(_ & Hnone & _)]).
  - exists result. by rewrite Hrun.
  - by rewrite Htarget in Hnone.
Qed.

(** X2. When the state machine executes the action without error, the worker
    forgets the request: its calls are [Get], the execution, [Forget] and
    [Done], and the request's requeue count is zero afterwards, whatever it
    was before. *)
Theorem success_resets_the_requeue_count
    queueSynced pgSynced cmdSynced s req declared queueState w1 :
  queueLister s (QueueRequest.Name (deref req)) = inl declared →
  NewState declared = Some queueState →
  (∀ s1, Execute queueState (QueueRequest.Action (deref req)) s1 = None) →
  workqueue.Get (queue s) = Some (Some (ObjQueueRequest req), w1) →
  let c := NewQueueController queueSynced pgSynced cmdSynced in
  let o := ObjQueueRequest req in
  processNextWorkItem c s =
    (Return true,
     appendTrace
       [EvGet TheQueue (Some o);
        EvExecute declared (QueueRequest.Action (deref req)) None;
        EvKlog (SevInfo 4) "Finished syncing queue %s (%v)."
               [VString (QueueRequest.Name (deref req))];
        EvForget TheQueue o;
        EvDone TheQueue o]
       (setWorkQueue TheQueue (workqueue.Done o (workqueue.Forget o w1)) s)) ∧
  workqueue.NumRequeues o (queue (snd (processNextWorkItem c s))) = 0.
Proof.
  intros Hget Hnew Hexec Hpop c o.
  assert (processNextWorkItem c s =
    (Return true,
     appendTrace
       [EvGet TheQueue (Some o);
        EvExecute declared (QueueRequest.Action (deref req)) None;
        EvKlog (SevInfo 4) "Finished syncing queue %s (%v)."
               [VString (QueueRequest.Name (deref req))];
        EvForget TheQueue o;
        EvDone TheQueue o]
       (setWorkQueue TheQueue (workqueue.Done o (workqueue.Forget o w1)) s))) as Hrun.
  { unfold c. erewrite processNextWorkItem_eq; [|exact Hpop|].
    2:{ cbv zeta. erewrite handleQueue_execute; [|exact Hget|exact Hnew].
        rewrite Hexec. reflexivity. }
    unfold defer, mbind, M_bind, mret, M_ret. rewrite handleQueueErr_nil.
    unfold Done. simpl. f_equal. world_eq. }
  split; [exact Hrun|]. rewrite Hrun. simpl.
  unfold workqueue.NumRequeues, workqueue.Done, workqueue.Forget.
  destruct (decide _); simpl; by rewrite lookup_delete_eq.
Qed.

(** ** Commands, once more *)

Lemma Commands_Delete_existing namespace name s :
  apiFaults s = [] →
  (namespace, name) ∈ commands s →
  Commands_Delete namespace name s =
    (Return None,
     mkWorld (queue s) (commandQueue s) (queueLister s) (commands s ∖ {[(namespace, name)]})
             [] (nextAddr s) (now s) (trace s ++ [EvDelete namespace name None])).
Proof.
  intros Hfaults Hin. unfold Commands_Delete. rewrite Hfaults. simpl.
  by rewrite decide_True.
Qed.

(** X3. A command without target object that is in the cluster, when the
    command worker takes it and the API call succeeds: the command is
    deleted, then [handleCommand] panics with the nil dereference, on
    [cmd.TargetObject.Name].  The two deferred calls still run, the log line
    of [handleCommand] and [Done]; nothing has been added to the
    queue-request queue, and the command, gone from the cluster, is neither
    forgotten nor put back.  [handleQueueErr] on its own panics in the same
    way when it is to drop an item that is no queue request, on [req.Name],
    before it has called anything. *)
Theorem nil_target_command_is_deleted_then_panics queueSynced pgSynced cmdSynced cmd s w1 :
  let c := NewQueueController queueSynced pgSynced cmdSynced in
  let o := ObjCommand cmd in
  let Namespace := Command.Namespace (deref cmd) in
  let Name := Command.Name (deref cmd) in
  workqueue.Get (commandQueue s) = Some (Some o, w1) →
  Command.TargetObject (deref cmd) = None →
  apiFaults s = [] →
  (Namespace, Name) ∈ commands s →
  (∃ s',
     processNextCommand c s = (Panic nilDereference, s') ∧
     trace s' = trace s ++
       [EvGet TheCommandQueue (Some o);
        EvDelete Namespace Name None;
        EvKlog (SevInfo 4) "Finished syncing command %s/%s (%v)."
               [VString Namespace; VString Name];
        EvDone TheCommandQueue o] ∧
     commands s' = commands s ∖ {[(Namespace, Name)]} ∧
     queue s' = queue s ∧
     commandQueue s' = workqueue.Done o w1) ∧
  (∀ err item s0,
     (∀ req, item ≠ ObjQueueRequest req) →
     (maxRetries ≤ workqueue.NumRequeues item (queue s0))%nat →
     handleQueueErr (Some err) item s0 = (Panic nilDereference, s0)).
Proof.
  intros c o Namespace Name Hget Htarget Hfaults Hin. split.
  - set (s1 := emit (EvGet TheCommandQueue (Some o)) (setWorkQueue TheCommandQueue w1 s)).
    pose proof (Commands_Delete_existing Namespace Name s1 Hfaults Hin) as Hdel.
    pose proof (handleCommand_nil_target c cmd s1 _ Hdel Htarget) as Hrun.
    eexists. split.
    { exact (processNextCommand_panic _ _ _ s cmd w1 _ _ Hget Hrun). }
    simpl. repeat (rewrite <- app_assoc; simpl). done.
  - intros err item s0 Hne Hge. unfold handleQueueErr. unfold_M. simpl.
    destruct (decide _) as [Hlt|_]; [lia|].
    destruct item as [req|cmd'|repr]; [by destruct (Hne req)|done|done].
Qed.

(** Once the command is gone from the cluster, handling it again enqueues
    nothing and leaves the queue-request queue alone. *)
Lemma redeliver_after_gone c cmd n s :
  (Command.Namespace (deref cmd), Command.Name (deref cmd)) ∉ commands s →
  ∃ calls s',
    redeliver n c cmd s = (Return (), s') ∧
    trace s' = trace s ++ calls ∧
    ((Command.Namespace (deref cmd), Command.Name (deref cmd)) ∉ commands s') ∧
    queue s' = queue s ∧
    count isAdd calls = 0.
Proof.
  revert s. induction n as [|n IH]; intros s Hgone.
  { exists [], s. by rewrite app_nil_r. }
  simpl. unfold mbind, M_bind.
  destruct (Commands_Delete_returns (Command.Namespace (deref cmd))
              (Command.Name (deref cmd)) s)
    as (result & s1 & Hdel & Htrace & Hqueue & _ & _ & Hcommands & Hexisted).
  destruct result as [err|]; [|by destruct Hgone; apply Hexisted].
  rewrite (handleCommand_delete_failed c cmd s err s1 Hdel).
  match goal with |- context [redeliver n c cmd ?s2] =>
    destruct (IH s2) as (calls & s3 & Hrun & Htrace3 & Hgone3 & Hqueue3 & Hcount);
      [simpl; by rewrite Hcommands|]
  end.
  rewrite Hrun. eexists _, s3. split; [reflexivity|]. split.
  { rewrite Htrace3. simpl. rewrite Htrace. repeat (rewrite <- app_assoc; simpl). reflexivity. }
  split; [done|]. split; [by rewrite Hqueue3|].
  change (count isAdd (?e1 :: ?e2 :: calls)) with (count isAdd calls). done.
Qed.

(** X7. With no fault pending, a command that exists in the cluster is
    consumed exactly once: however often it is handled afterwards, the
    command is gone from the cluster, one request has been added to the
    queue-request queue, and the calls hold exactly one [Add]. *)
Theorem existing_command_is_consumed_exactly_once c cmd target s n :
  enqueueQueue c = enqueue →
  Command.TargetObject (deref cmd) = Some target →
  apiFaults s = [] →
  (Command.Namespace (deref cmd), Command.Name (deref cmd)) ∈ commands s →
  let req := Ptr (nextAddr s)
               (QueueRequest.mk (OwnerReference.Name target) QueueCommandIssuedEvent
                                (Command.Action (deref cmd))) in
  fst (redeliver (S n) c cmd s) = Return () ∧
  ((Command.Namespace (deref cmd), Command.Name (deref cmd))
     ∉ commands (snd (redeliver (S n) c cmd s))) ∧
  queue (snd (redeliver (S n) c cmd s)) = workqueue.Add (ObjQueueRequest req) (queue s) ∧
  count isAdd (drop (length (trace s)) (trace (snd (redeliver (S n) c cmd s)))) = 1.
Proof.
  intros Henq Htarget Hfaults Hin req.
  pose proof (Commands_Delete_existing _ _ s Hfaults Hin) as Hdel.
  simpl. unfold mbind, M_bind.
  rewrite (handleCommand_deleted c cmd s _ target Henq Hdel Htarget). simpl.
  match goal with |- context [redeliver n c cmd ?s2] =>
    destruct (redeliver_after_gone c cmd n s2)
      as (calls & s3 & Hrun & Htrace3 & Hgone3 & Hqueue3 & Hcount)
  end.
  { simpl. rewrite not_elem_of_difference. right. by apply elem_of_singleton. }
  rewrite Hrun. simpl. split; [done|]. split; [done|]. split; [by rewrite Hqueue3|].
  rewrite Htrace3. simpl. repeat (rewrite <- app_assoc; simpl).
  rewrite drop_app_length.
  change (count isAdd (?e1 :: ?e2 :: ?e3 :: calls)) with (S (count isAdd calls)).
  by rewrite Hcount.
Qed.

Lemma processNextCommand_success queueSynced pgSynced cmdSynced s cmd target w1 :
  workqueue.Get (commandQueue s) = Some (Some (ObjCommand cmd), w1) →
  apiFaults s = [] →
  (Command.Namespace (deref cmd), Command.Name (deref cmd)) ∈ commands s →
  Command.TargetObject (deref cmd) = Some target →
  let req := Ptr (nextAddr s)
               (QueueRequest.mk (OwnerReference.Name target) QueueCommandIssuedEvent
                                (Command.Action (deref cmd))) in
  processNextCommand (NewQueueController queueSynced pgSynced cmdSynced) s =
    (Return true,
     mkWorld (workqueue.Add (ObjQueueRequest req) (queue s))
       (workqueue.Done (ObjCommand cmd) (workqueue.Forget (ObjCommand cmd) w1))
       (queueLister s)
       (commands s ∖ {[(Command.Namespace (deref cmd), Command.Name (deref cmd))]})
       [] (S (nextAddr s)) (now s)
       (trace s ++
          [EvGet TheCommandQueue (Some (ObjCommand cmd));
           EvDelete (Command.Namespace (deref cmd)) (Command.Name (deref cmd)) None;
           EvAdd TheQueue (ObjQueueRequest req);
           EvKlog (SevInfo 4) "Finished syncing command %s/%s (%v)."
             [VString (Command.Namespace (deref cmd)); VString (Command.Name (deref cmd))];
           EvForget TheCommandQueue (ObjCommand cmd);
           EvDone TheCommandQueue (ObjCommand cmd)])).
Proof.
  intros Hpop Hfaults Hin Htarget req.
  set (s1 := emit (EvGet TheCommandQueue (Some (ObjCommand cmd)))
               (setWorkQueue TheCommandQueue w1 s)).
  pose proof (Commands_Delete_existing (Command.Namespace (deref cmd))
                (Command.Name (deref cmd)) s1 Hfaults Hin) as Hdel.
  pose proof (handleCommand_deleted (NewQueueController queueSynced pgSynced cmdSynced)
                cmd s1 _ target eq_refl Hdel Htarget) as Hhandle.
  cbv zeta in Hhandle.
  rewrite (processNextCommand_eq _ _ _ s cmd w1 None _ Hpop Hhandle).
  unfold defer, mbind, M_bind, mret, M_ret. rewrite handleCommandErr_nil.
  unfold Done. simpl. f_equal. unfold emit. simpl. f_equal.
  repeat (rewrite <- app_assoc; simpl). reflexivity.
Qed.

Lemma processNextWorkItem_executes queueSynced pgSynced cmdSynced s req declared queueState w1 :
  queueLister s (QueueRequest.Name (deref req)) = inl declared →
  NewState declared = Some queueState →
  workqueue.Get (queue s) = Some (Some (ObjQueueRequest req), w1) →
  ∃ result rest,
    fst (processNextWorkItem (NewQueueController queueSynced pgSynced cmdSynced) s)
      = Return true ∧
    trace (snd (processNextWorkItem (NewQueueController queueSynced pgSynced cmdSynced) s))
      = trace s
          ++ [EvGet TheQueue (Some (ObjQueueRequest req));
              EvExecute declared (QueueRequest.Action (deref req)) result]
          ++ rest ∧
    last rest = Some (EvDone TheQueue (ObjQueueRequest req)).
Proof.
  intros Hget Hnew Hpop.
  set (s1 := emit (EvGet TheQueue (Some (ObjQueueRequest req))) (setWorkQueue TheQueue w1 s)).
  pose proof (handleQueue_execute req s1 declared queueState Hget Hnew) as Hexec.
  rewrite (processNextWorkItem_eq _ _ _ s req w1 _ _ Hpop Hexec).
  unfold defer, mbind, M_bind, mret, M_ret.
  match goal with |- context [handleQueueErr ?r ?o ?s2] =>
    destruct (handleQueueErr_calls r req s2) as (calls & s3 & Herr & Htrace3 & _)
  end.
  rewrite Herr. cbn [fst snd].
  exists (Execute queueState (QueueRequest.Action (deref req)) s1).
  eexists. split; [reflexivity|]. split.
  - unfold Done. cbn [snd]. unfold emit. cbn [trace setWorkQueue]. rewrite Htrace3.
    rewrite trace_appendTrace. cbn [trace setWorkQueue].
    repeat (rewrite <- app_assoc; simpl). reflexivity.
  - rewrite !app_comm_cons. apply last_snoc.
Qed.

(** X8. From command to state machine: with no fault pending and an empty
    queue-request queue, the command worker deletes the command and enqueues
    its request, and the queue worker's next item is that request: the state
    machine built for the target queue is executed with the command's action.
    The calls, in order, are [Get], the deletion, [Add], [Forget] and [Done]
    of the command worker, then [Get] and the execution of the queue worker,
    whose last call is [Done] of the request. *)
Theorem command_reaches_the_state_machine
    queueSynced pgSynced cmdSynced s cmd target declared queueState w1 :
  workqueue.Get (commandQueue s) = Some (Some (ObjCommand cmd), w1) →
  queue s = workqueue.NewRateLimitingQueue →
  apiFaults s = [] →
  (Command.Namespace (deref cmd), Command.Name (deref cmd)) ∈ commands s →
  Command.TargetObject (deref cmd) = Some target →
  queueLister s (OwnerReference.Name target) = inl declared →
  NewState declared = Some queueState →
  let c := NewQueueController queueSynced pgSynced cmdSynced in
  let req := Ptr (nextAddr s)
               (QueueRequest.mk (OwnerReference.Name target) QueueCommandIssuedEvent
                                (Command.Action (deref cmd))) in
  ∃ result rest,
    fst ((processNextCommand c;; processNextWorkItem c) s) = Return true ∧
    trace (snd ((processNextCommand c;; processNextWorkItem c) s)) =
      trace s ++
        [EvGet TheCommandQueue (Some (ObjCommand cmd));
         EvDelete (Command.Namespace (deref cmd)) (Command.Name (deref cmd)) None;
         EvAdd TheQueue (ObjQueueRequest req);
         EvKlog (SevInfo 4) "Finished syncing command %s/%s (%v)."
           [VString (Command.Namespace (deref cmd)); VString (Command.Name (deref cmd))];
         EvForget TheCommandQueue (ObjCommand cmd);
         EvDone TheCommandQueue (ObjCommand cmd);
         EvGet TheQueue (Some (ObjQueueRequest req));
         EvExecute declared (Command.Action (deref cmd)) result]
        ++ rest ∧
    last rest = Some (EvDone TheQueue (ObjQueueRequest req)).
Proof.
  intros Hpop Hempty Hfaults Hin Htarget Hget Hnew c req.
  pose proof (processNextCommand_success queueSynced pgSynced cmdSynced s cmd target w1
                Hpop Hfaults Hin Htarget) as Hcmd.
  cbv zeta in Hcmd. fold req c in Hcmd.
  assert ((processNextCommand c;; processNextWorkItem c) s
            = processNextWorkItem c (snd (processNextCommand c s))) as ->
    by (unfold mbind, M_bind; by rewrite Hcmd).
  rewrite Hcmd. cbn [snd]. rewrite Hempty.
  match goal with |- context [processNextWorkItem c ?s3] => set (s3' := s3) end.
  destruct (processNextWorkItem_executes queueSynced pgSynced cmdSynced s3' req declared
              queueState
              (Scenario.taken (ObjQueueRequest req) (Scenario.enqueued (ObjQueueRequest req))))
    as (result & rest & Hret & Htrace & Hlast).
  { exact Hget. }
  { exact Hnew. }
  { apply (Get_queuedAlone _ 0), queuedAlone_fresh. }
  exists result, rest. fold c in Hret, Htrace.
  split; [exact Hret|]. split; [|exact Hlast].
  rewrite Htrace. unfold s3'. cbn [trace].
  repeat (rewrite <- app_assoc; simpl). reflexivity.
Qed.

(** ** Shutdown *)

Lemma keeps_ret {A} (a : A) : keeps (mret a).
Proof. by intros q s. Qed.

Lemma keeps_bind {A B} (m : M A) (f : A → M B) :
  keeps m → (∀ a, keeps (f a)) → keeps (m ≫= f).
Proof.
  intros Hm Hf q s. unfold mbind, M_bind. specialize (Hm q s).
  destruct (m s) as [[a|msg|] s1]; simpl in *; [by rewrite Hf|done|done].
Qed.

Lemma keeps_defer {A} (d : M unit) (body : M A) :
  keeps d → keeps body → keeps (defer d body).
Proof.
  intros Hd Hbody q s. unfold defer. specialize (Hbody q s).
  destruct (body s) as [[a|msg|] s1]; simpl in *; [| |done].
  all: specialize (Hd q s1); destruct (d s1) as [[[]|msg'|] s2]; simpl in *; congruence.
Qed.

Lemma keeps_tell e : keeps (tell e).
Proof. by intros [] s. Qed.

Lemma keeps_panic {A} msg : keeps (panic msg : M A).
Proof. by intros q s. Qed.

Lemma shuttingDown_setWorkQueue q' w s q :
  workqueue.shuttingDown w = workqueue.shuttingDown (workQueue q' s) →
  workqueue.shuttingDown (workQueue q (setWorkQueue q' w s))
    = workqueue.shuttingDown (workQueue q s).
Proof. by destruct q, q'. Qed.

Lemma shuttingDown_emit e s q :
  workqueue.shuttingDown (workQueue q (emit e s)) = workqueue.shuttingDown (workQueue q s).
Proof. by destruct q. Qed.

Lemma shuttingDown_Add item w :
  workqueue.shuttingDown (workqueue.Add item w) = workqueue.shuttingDown w.
Proof. unfold workqueue.Add. by repeat case_match. Qed.

Lemma shuttingDown_Done item w :
  workqueue.shuttingDown (workqueue.Done item w) = workqueue.shuttingDown w.
Proof. unfold workqueue.Done. by case_match. Qed.

Lemma shuttingDown_AddRateLimited item w :
  workqueue.shuttingDown (workqueue.AddRateLimited item w) = workqueue.shuttingDown w.
Proof.
  unfold workqueue.AddRateLimited, workqueue.AddAfter, workqueue.When. simpl.
  by destruct (workqueue.shuttingDown w).
Qed.

Lemma shuttingDown_ready item w :
  workqueue.shuttingDown (workqueue.ready item w) = workqueue.shuttingDown w.
Proof. unfold workqueue.ready. case_match; [|done]. by rewrite shuttingDown_Add. Qed.

Lemma shuttingDown_Get w item w1 :
  workqueue.Get w = Some (item, w1) →
  workqueue.shuttingDown w1 = workqueue.shuttingDown w.
Proof. unfold workqueue.Get. repeat case_match; intros; by simplify_eq. Qed.

Lemma keeps_Add q item : keeps (Add q item).
Proof.
  intros q' s. unfold Add. simpl.
  by rewrite shuttingDown_emit, shuttingDown_setWorkQueue by apply shuttingDown_Add.
Qed.

Lemma keeps_Done q item : keeps (Done q item).
Proof.
  intros q' s. unfold Done. simpl.
  by rewrite shuttingDown_emit, shuttingDown_setWorkQueue by apply shuttingDown_Done.
Qed.

Lemma keeps_Forget q item : keeps (Forget q item).
Proof.
  intros q' s. unfold Forget. simpl.
  by rewrite shuttingDown_emit, shuttingDown_setWorkQueue.
Qed.

Lemma keeps_AddRateLimited q item : keeps (AddRateLimited q item).
Proof.
  intros q' s. unfold AddRateLimited. simpl.
  by rewrite shuttingDown_emit, shuttingDown_setWorkQueue
    by apply shuttingDown_AddRateLimited.
Qed.

Lemma keeps_Get q : keeps (Get q).
Proof.
  intros q' s. unfold Get.
  destruct (workqueue.Get (workQueue q s)) as [[item w1]|] eqn:Hget; simpl; [|done].
  rewrite shuttingDown_emit, shuttingDown_setWorkQueue; [done|].
  by eapply shuttingDown_Get.
Qed.

Lemma keeps_delayPasses q item : keeps (delayPasses q item).
Proof.
  intros q' s. unfold delayPasses. simpl.
  by rewrite shuttingDown_setWorkQueue by apply shuttingDown_ready.
Qed.

Lemma keeps_Commands_Delete namespace name : keeps (Commands_Delete namespace name).
Proof. by intros [] s. Qed.

Lemma keeps_new {A} (v : A) : keeps (new v).
Proof. by intros [] s. Qed.

Lemma keeps_handleQueue req : keeps (handleQueue req).
Proof.
  unfold handleQueue, klog.
  apply keeps_defer; [apply keeps_tell|].
  apply keeps_bind; [by intros [] s|]. intros [queue|err].
  - destruct (NewState queue); [|apply keeps_ret].
    apply keeps_bind; [by intros [] s|]. intros []; apply keeps_ret.
  - destruct (IsNotFound err); [|apply keeps_ret].
    apply keeps_bind; [apply keeps_tell|]. intros. apply keeps_ret.
Qed.

Lemma keeps_handleErr q (dropping : obj → error → M unit) result item format :
  (∀ err, keeps (dropping item err)) →
  keeps (match result with
         | None => Forget q item
         | Some err =>
             n ← NumRequeues q item;
             if decide (n < maxRetries)%nat then
               klog (SevInfo 4) format [VObj item; VError err];;
               AddRateLimited q item
             else dropping item err
         end).
Proof.
  intros Hdrop. destruct result as [err|]; [|apply keeps_Forget].
  apply keeps_bind; [by intros q' s|]. intros n.
  destruct (decide _); [|apply Hdrop].
  apply keeps_bind; [apply keeps_tell|]. intros. apply keeps_AddRateLimited.
Qed.

Lemma keeps_handleQueueErr result item : keeps (handleQueueErr result item).
Proof.
  apply (keeps_handleErr TheQueue
           (λ o err,
              match o with
              | ObjQueueRequest req =>
                  recordEventsForQueue (QueueRequest.Name (deref req)) EventTypeWarning
                    (QueueRequest.Action (deref req))
                    (QueueRequest.Action (deref req) +:+ " queue failed for " +:+ Error err);;
                  klog (SevInfo 2) "Dropping queue request %v out of the queue for %v."
                       [VObj o; VError err];;
                  Forget TheQueue o
              | _ => panic nilDereference
              end)).
  intros err. destruct item; try apply keeps_panic.
  apply keeps_bind; [apply keeps_tell|]. intros.
  apply keeps_bind; [apply keeps_tell|]. intros. apply keeps_Forget.
Qed.

Lemma keeps_handleCommandErr result item : keeps (handleCommandErr result item).
Proof.
  apply (keeps_handleErr TheCommandQueue
           (λ o err,
              klog (SevInfo 2) "Dropping command %v out of the queue for %v."
                   [VObj o; VError err];;
              Forget TheCommandQueue o)).
  intros err. apply keeps_bind; [apply keeps_tell|]. intros. apply keeps_Forget.
Qed.

Lemma keeps_handleCommand c cmd :
  (∀ req, keeps (enqueueQueue c req)) → keeps (handleCommand c cmd).
Proof.
  intros Henq. unfold handleCommand, klog.
  apply keeps_defer; [apply keeps_tell|].
  apply keeps_bind; [apply keeps_Commands_Delete|]. intros [err|].
  - destruct (IsNotFound err); apply keeps_ret.
  - destruct (Command.TargetObject (deref cmd)); [|apply keeps_panic].
    apply keeps_bind; [apply keeps_new|]. intros req.
    apply keeps_bind; [apply Henq|]. intros. apply keeps_ret.
Qed.

Lemma keeps_processNextWorkItem c :
  (∀ req, keeps (syncHandler c req)) → keeps (processNextWorkItem c).
Proof.
  intros Hsync. unfold processNextWorkItem, klog.
  apply keeps_bind; [apply keeps_Get|]. intros [o|]; [|apply keeps_ret].
  apply keeps_defer; [apply keeps_Done|].
  destruct o as [req|cmd|repr].
  - apply keeps_bind; [apply Hsync|]. intros result.
    apply keeps_bind; [apply keeps_handleQueueErr|]. intros. apply keeps_ret.
  - apply keeps_bind; [apply keeps_tell|]. intros. apply keeps_ret.
  - apply keeps_bind; [apply keeps_tell|]. intros. apply keeps_ret.
Qed.

Lemma keeps_processNextCommand c :
  (∀ cmd, keeps (syncCommandHandler c cmd)) → keeps (processNextCommand c).
Proof.
  intros Hsync. unfold processNextCommand, klog.
  apply keeps_bind; [apply keeps_Get|]. intros [o|]; [|apply keeps_ret].
  apply keeps_defer; [apply keeps_Done|].
  destruct o as [req|cmd|repr].
  - apply keeps_bind; [apply keeps_tell|]. intros. apply keeps_ret.
  - apply keeps_bind; [apply Hsync|]. intros result.
    apply keeps_bind; [apply keeps_handleCommandErr|]. intros. apply keeps_ret.
  - apply keeps_bind; [apply keeps_tell|]. intros. apply keeps_ret.
Qed.

Lemma keeps_deliver n : keeps (deliver cmdEventHandler n).
Proof.
  intros q s. destruct (deliver_cases n s) as [->|(o & _ & _ & ->)]; [done|].
  apply keeps_Add.
Qed.

(** The rounds of the two workers of the controller, the informer's
    deliveries and the passing of a delay leave the shutdown flags alone. *)
Lemma keeps_goroutines queueSynced pgSynced cmdSynced :
  let c := NewQueueController queueSynced pgSynced cmdSynced in
  keeps (processNextWorkItem c) ∧ keeps (processNextCommand c) ∧
  (∀ req, keeps (enqueue req)) ∧ (∀ n, keeps (deliver cmdEventHandler n)) ∧
  (∀ q item, keeps (delayPasses q item)).
Proof.
  intros c. split; [|split; [|split; [|split]]].
  - apply keeps_processNextWorkItem. intros req. apply keeps_handleQueue.
  - apply keeps_processNextCommand. intros cmd. apply keeps_handleCommand.
    intros req. apply keeps_Add.
  - intros req. apply keeps_Add.
  - apply keeps_deliver.
  - apply keeps_delayPasses.
Qed.

(** X6. [Run] among the goroutines it starts.  Whatever the informers and the
    workers do while [Run] waits and between its deferred calls, as long as
    they never reopen a work queue that is shut down, [Run] returns, with the
    caches synced or not, and both work queues are shut down when it does.
    From then on nothing is accepted: a request enqueued and a command
    delivered by the informer leave the queues as they are, and a worker that
    finds its queue empty gets the shutdown indicator.  The rounds of the two
    workers of the controller, the deliveries of the command informer, an
    enqueued request and the passing of a delay are such goroutine steps: they
    leave the shutdown flags as they are.  With goroutines that do nothing,
    [RunAmong] is [Run]. *)
Theorem Run_leaves_both_queues_shut_down c stopCh others s :
  neverReopens others →
  let s' := snd (RunAmong others c stopCh s) in
  fst (RunAmong others c stopCh s) = Return () ∧
  workqueue.shuttingDown (queue s') = true ∧
  workqueue.shuttingDown (commandQueue s') = true ∧
  (∀ req, queue (snd (enqueue req s')) = queue s') ∧
  (∀ n, commandQueue (snd (deliver cmdEventHandler n s')) = commandQueue s') ∧
  (∀ q c', workqueue.queue (workQueue q s') = [] →
           fst (processNext q c' s') = Return false) ∧
  (∀ queueSynced pgSynced cmdSynced,
     keeps (processNextWorkItem (NewQueueController queueSynced pgSynced cmdSynced)) ∧
     keeps (processNextCommand (NewQueueController queueSynced pgSynced cmdSynced)) ∧
     (∀ req, keeps (enqueue req)) ∧ (∀ n, keeps (deliver cmdEventHandler n)) ∧
     (∀ q item, keeps (delayPasses q item))) ∧
  RunAmong (λ _ s1, s1) c stopCh s = Run c stopCh s.
Proof.
  intros Hothers s'.
  assert (∀ i s1, workqueue.shuttingDown (queue s1) = true →
                  workqueue.shuttingDown (queue (others i s1)) = true) as Hkq
    by (intros i s1; apply (Hothers i TheQueue)).
  assert (∀ i s1, workqueue.shuttingDown (commandQueue s1) = true →
                  workqueue.shuttingDown (commandQueue (others i s1)) = true) as Hkcq
    by (intros i s1; apply (Hothers i TheCommandQueue)).
  assert (fst (RunAmong others c stopCh s) = Return () ∧
          workqueue.shuttingDown (queue s') = true ∧
          workqueue.shuttingDown (commandQueue s') = true)
    as (Hret & Hq & Hcq).
  { unfold s', RunAmong, WaitForCacheSync, meanwhile. unfold_M. simpl.
    destruct (PollUntil _ _ _) as [[] t]; simpl.
    all: split; [done|]; split; [by apply Hkq|]; apply Hkcq; simpl; by apply Hkcq. }
  repeat (split; [done|]). split; [|split; [|split; [|split]]].
  - intros req. unfold enqueue, Add. simpl. unfold workqueue.Add. by rewrite Hq.
  - intros n. destruct (deliver_cases n s') as [->|(o & _ & _ & ->)]; [done|].
    unfold Add. simpl. unfold workqueue.Add. by rewrite Hcq.
  - intros q c' Hempty.
    assert (workqueue.Get (workQueue q s') = Some (None, workQueue q s')) as Hget.
    { unfold workqueue.Get. rewrite Hempty. destruct q; simpl; by rewrite ?Hq, ?Hcq. }
    by rewrite (processNext_shutdown c' q s' _ Hget).
  - intros queueSynced pgSynced cmdSynced. apply keeps_goroutines.
  - unfold RunAmong, Run, WaitForCacheSync, meanwhile. unfold_M. simpl.
    by destruct (PollUntil _ _ _) as [[] t].
Qed.

Lemma Get_head o rest w :
  workqueue.queue w = o :: rest →
  workqueue.Get w =
    Some (Some o,
          workqueue.mk rest (workqueue.dirty w ∖ {[o]}) ({[o]} ∪ workqueue.processing w)
            (workqueue.shuttingDown w) (workqueue.waitingForAdd w) (workqueue.failures w)).
Proof. intros Hq. unfold workqueue.Get. by rewrite Hq. Qed.

(** After [Get] has taken the head of a well-formed queue and the handler has
    left the queued items, the dirty set and the shutdown flag alone, [Done]
    leaves the rest of the queue, well formed. *)
Lemma Done_after_Get o rest w w2 :
  workqueue.queue w = o :: rest →
  wellFormed w →
  workqueue.queue w2 = rest →
  workqueue.dirty w2 = workqueue.dirty w ∖ {[o]} →
  workqueue.shuttingDown w2 = workqueue.shuttingDown w →
  workqueue.queue (workqueue.Done o w2) = rest ∧
  wellFormed (workqueue.Done o w2) ∧
  workqueue.shuttingDown (workqueue.Done o w2) = workqueue.shuttingDown w.
Proof.
  intros Hq [Hnodup Hdirty] Hq2 Hdirty2 Hsd2. rewrite Hq in Hnodup, Hdirty.
  apply NoDup_cons in Hnodup as [Hfresh Hnodup].
  unfold workqueue.Done. rewrite decide_False by (rewrite Hdirty2; set_solver).
  simpl. split; [done|]. split; [|done].
  split; simpl; [by rewrite Hq2|].
  intros item Hin. rewrite Hq2 in Hin. rewrite Hdirty2.
  apply elem_of_difference. split; [apply Hdirty; by right|].
  intros ->%elem_of_singleton. done.
Qed.

Lemma AddRateLimited_keeps o w :
  workqueue.queue (workqueue.AddRateLimited o w) = workqueue.queue w ∧
  workqueue.dirty (workqueue.AddRateLimited o w) = workqueue.dirty w ∧
  workqueue.shuttingDown (workqueue.AddRateLimited o w) = workqueue.shuttingDown w.
Proof.
  unfold workqueue.AddRateLimited, workqueue.AddAfter, workqueue.When. simpl.
  by destruct (workqueue.shuttingDown w).
Qed.

(** One round of the queue worker on a well-formed queue takes the head and
    leaves the rest, whatever the item and however its processing ends. *)
Lemma processing_Done o w :
  workqueue.processing (workqueue.Done o w) = workqueue.processing w ∖ {[o]}.
Proof. unfold workqueue.Done. by destruct (decide _). Qed.

Lemma processing_AddRateLimited o w :
  workqueue.processing (workqueue.AddRateLimited o w) = workqueue.processing w.
Proof.
  unfold workqueue.AddRateLimited, workqueue.AddAfter, workqueue.When. simpl.
  by destruct (workqueue.shuttingDown w).
Qed.

Lemma taken_then_done (o : obj) (P : gset obj) : ({[o]} ∪ P) ∖ {[o]} = P ∖ {[o]}.
Proof. set_solver. Qed.

Lemma filter_none (kind : Effect → bool) calls :
  Forall (λ e, kind e = false) calls → List.filter kind calls = [].
Proof. induction 1 as [|e calls He _ IH]; simpl; [done|]. by rewrite He. Qed.

Lemma processNextWorkItem_takes_head queueSynced pgSynced cmdSynced s o rest :
  workqueue.queue (queue s) = o :: rest →
  wellFormed (queue s) →
  ∃ calls s',
    processNextWorkItem (NewQueueController queueSynced pgSynced cmdSynced) s
      = (Return true, s') ∧
    trace s' = trace s ++ EvGet TheQueue (Some o) :: calls ++ [EvDone TheQueue o] ∧
    Forall (λ e, isDone e = false ∧ isGet e = false) calls ∧
    workqueue.queue (queue s') = rest ∧
    wellFormed (queue s') ∧
    workqueue.shuttingDown (queue s') = workqueue.shuttingDown (queue s) ∧
    workqueue.processing (queue s') = workqueue.processing (queue s) ∖ {[o]}.
Proof.
  intros Hq Hwf. pose proof (Get_head o rest (queue s) Hq) as Hget.
  set (w1 := workqueue.mk _ _ _ _ _ _) in Hget.
  destruct (expectedType TheQueue o) eqn:Hty.
  - destruct o as [req|cmd|repr]; try discriminate.
    set (s1 := emit (EvGet TheQueue (Some (ObjQueueRequest req))) (setWorkQueue TheQueue w1 s)).
    destruct (handleQueue_calls req s1) as (result & calls & Hhandle & Hcalls).
    rewrite (processNextWorkItem_eq _ _ _ s req w1 result calls Hget Hhandle).
    unfold defer, mbind, M_bind, mret, M_ret.
    assert (Forall (λ e, isDone e = false ∧ isGet e = false) calls) as Hcalls'
      by (eapply Forall_impl; [exact Hcalls|]; by intros []).
    destruct result as [err|];
      [destruct (decide (workqueue.NumRequeues (ObjQueueRequest req) w1 < maxRetries)%nat)|].
    + rewrite handleQueueErr_retry by done. unfold Done. simpl.
      destruct (AddRateLimited_keeps (ObjQueueRequest req) w1) as (Hk1 & Hk2 & Hk3).
      destruct (Done_after_Get _ rest (queue s) _ Hq Hwf Hk1 Hk2 Hk3) as (Hd1 & Hd2 & Hd3).
      eexists (calls ++ [_; _]), _. split; [reflexivity|]. simpl.
      split; [repeat (rewrite <- app_assoc; simpl); reflexivity|].
      split; [apply Forall_app; split; [done|by repeat constructor]|].
      repeat (split; [done|]).
      rewrite processing_Done, ?processing_AddRateLimited. apply taken_then_done.
    + rewrite handleQueueErr_drop by (simpl; lia). unfold Done. simpl.
      destruct (Done_after_Get (ObjQueueRequest req) rest (queue s)
                  (workqueue.Forget (ObjQueueRequest req) w1) Hq Hwf eq_refl eq_refl eq_refl)
        as (Hd1 & Hd2 & Hd3).
      eexists (calls ++ [_; _; _]), _. split; [reflexivity|]. simpl.
      split; [repeat (rewrite <- app_assoc; simpl); reflexivity|].
      split; [apply Forall_app; split; [done|by repeat constructor]|].
      repeat (split; [done|]).
      rewrite processing_Done, ?processing_AddRateLimited. apply taken_then_done.
    + rewrite handleQueueErr_nil. unfold Done. simpl.
      destruct (Done_after_Get (ObjQueueRequest req) rest (queue s)
                  (workqueue.Forget (ObjQueueRequest req) w1) Hq Hwf eq_refl eq_refl eq_refl)
        as (Hd1 & Hd2 & Hd3).
      eexists (calls ++ [_]), _. split; [reflexivity|]. simpl.
      split; [repeat (rewrite <- app_assoc; simpl); reflexivity|].
      split; [apply Forall_app; split; [done|by repeat constructor]|].
      repeat (split; [done|]).
      rewrite processing_Done, ?processing_AddRateLimited. apply taken_then_done.
  - pose proof (processNext_wrong_type (NewQueueController queueSynced pgSynced cmdSynced)
                  TheQueue s o w1 Hget Hty) as Hrun.
    simpl in Hrun. rewrite Hrun.
    destruct (Done_after_Get o rest (queue s) w1 Hq Hwf eq_refl eq_refl eq_refl)
      as (Hd1 & Hd2 & Hd3).
    eexists [_], _. split; [reflexivity|]. simpl.
    split; [reflexivity|]. split; [by repeat constructor|].
    repeat (split; [done|]).
      rewrite processing_Done, ?processing_AddRateLimited. apply taken_then_done.
Qed.

(** X5. After shutdown the queue worker drains its queue and ends: on a
    work queue that is shutting down and whose queued items are distinct and
    marked dirty, the loop ends within one round more than there are items.
    Its [Get] calls are, in the order of the queue, one for each item and
    then the one that reports the shutdown, which is its last call; its
    [Done] calls are, in the same order, exactly one for each item, on the
    queue-request queue; the queue is empty afterwards and none of the items
    is left marked as being processed. *)
Theorem worker_drains_after_shutdown queueSynced pgSynced cmdSynced s :
  workqueue.shuttingDown (queue s) = true →
  wellFormed (queue s) →
  let c := NewQueueController queueSynced pgSynced cmdSynced in
  let items := workqueue.queue (queue s) in
  ∃ calls s',
    worker (S (length items)) c s = (Return (Some ()), s') ∧
    trace s' = trace s ++ calls ∧
    workqueue.queue (queue s') = [] ∧
    getCalls calls = map (λ o, EvGet TheQueue (Some o)) items ++ [EvGet TheQueue None] ∧
    doneCalls calls = map (EvDone TheQueue) items ∧
    workqueue.processing (queue s') = workqueue.processing (queue s) ∖ list_to_set items ∧
    last calls = Some (EvGet TheQueue None).
Proof.
  intros Hsd Hwf c items. unfold items. clear items.
  remember (workqueue.queue (queue s)) as items eqn:Hitems.
  revert s Hsd Hwf Hitems. induction items as [|o rest IH]; intros s Hsd Hwf Hitems.
  - assert (workqueue.Get (workQueue TheQueue s) = Some (None, queue s)) as Hget
      by (unfold workqueue.Get; simpl; by rewrite <- Hitems, Hsd).
    pose proof (processNext_shutdown c TheQueue s _ Hget) as Hrun. simpl in Hrun.
    exists [EvGet TheQueue None], (appendTrace [EvGet TheQueue None] s).
    simpl. unfold mbind, M_bind. rewrite Hrun. simpl. rewrite <- Hitems.
    repeat (split; [done|]). split; [|done].
    by rewrite difference_empty_L.
  - destruct (processNextWorkItem_takes_head queueSynced pgSynced cmdSynced s o rest
                (eq_sym Hitems) Hwf)
      as (calls1 & s1 & Hrun1 & Htrace1 & Hcalls1 & Hrest & Hwf1 & Hsd1 & Hproc1).
    destruct (IH s1)
      as (calls2 & s2 & Hrun2 & Htrace2 & Hempty & Hget & Hdone & Hproc2 & Hlast);
      [by rewrite Hsd1|done|done|].
    exists ((EvGet TheQueue (Some o) :: calls1 ++ [EvDone TheQueue o]) ++ calls2), s2.
    change (worker (S (length (o :: rest))) c s)
      with ((continue ← processNextWorkItem c;
             if continue : bool then worker (S (length rest)) c else mret (Some ())) s).
    unfold mbind, M_bind. fold c in Hrun1. rewrite Hrun1, Hrun2.
    split; [done|]. split; [by rewrite Htrace2, Htrace1, app_assoc|].
    split; [done|].
    assert (last ((EvGet TheQueue (Some o) :: calls1 ++ [EvDone TheQueue o]) ++ calls2)
              = Some (EvGet TheQueue None)) as Hlast' by (by rewrite last_app, Hlast).
    assert (List.filter isDone calls1 = [] ∧ List.filter isGet calls1 = []) as [Hd1 Hg1].
    { split; apply filter_none; eapply Forall_impl; try exact Hcalls1; by intros ? []. }
    change (EvGet TheQueue (Some o) :: calls1 ++ [EvDone TheQueue o])
      with ([EvGet TheQueue (Some o)] ++ calls1 ++ [EvDone TheQueue o]).
    unfold getCalls, doneCalls in *.
    rewrite !List.filter_app, Hd1, Hg1, Hdone, Hget. simpl.
    split; [reflexivity|]. split; [reflexivity|]. split; [|exact Hlast'].
    rewrite Hproc2, Hproc1. set_solver.
Qed.

(** ** The retry cap of commands *)

Lemma Commands_Delete_fault namespace name s err faults :
  apiFaults s = Some err :: faults →
  Commands_Delete namespace name s =
    (Return (Some err),
     mkWorld (queue s) (commandQueue s) (queueLister s) (commands s) faults
             (nextAddr s) (now s) (trace s ++ [EvDelete namespace name (Some err)])).
Proof. intros Hfaults. unfold Commands_Delete. by rewrite Hfaults. Qed.

Lemma failing_S n faults :
  failing (S n) faults →
  ∃ err rest, faults = Some err :: rest ∧ IsNotFound err = false ∧ failing n rest.
Proof.
  intros Hfailing. destruct (Hfailing 0 ltac:(lia)) as (err & Hhead & Hnf).
  destruct faults as [|fault rest]; [done|]. simpl in Hhead. simplify_eq.
  exists err, rest. split; [done|]. split; [done|].
  intros i Hi. apply (Hfailing (S i)). lia.
Qed.

Section FailingDeletion.

Variables queueSynced pgSynced cmdSynced : InformerSynced.
Variable cmd : ptr Command.t.

Let c := NewQueueController queueSynced pgSynced cmdSynced.
Let o := ObjCommand cmd.

(** One round on a command whose deletion fails: what [handleCommandErr] is
    given, and the world it is given it in. *)
Lemma failed_deletion_round k s n :
  queuedAlone o k (commandQueue s) →
  failing (S n) (apiFaults s) →
  ∃ err w1 s2,
    workqueue.Get (commandQueue s) = Some (Some o, w1) ∧
    workqueue.NumRequeues o w1 = k ∧
    processNextCommand c s =
      defer (Done TheCommandQueue o) (handleCommandErr (Some err) o;; mret true) s2 ∧
    (∃ deleted finished, trace s2 = trace s ++ [EvGet TheCommandQueue (Some o); deleted; finished]
       ∧ isAdd deleted = false ∧ isAdd finished = false
       ∧ isAddRateLimited deleted = false ∧ isAddRateLimited finished = false
       ∧ isForget deleted = false ∧ isForget finished = false
       ∧ isRecordEvent deleted = false ∧ isRecordEvent finished = false) ∧
    commandQueue s2 = w1 ∧ queue s2 = queue s ∧ commands s2 = commands s ∧
    failing n (apiFaults s2).
Proof.
  intros Halone Hfailing.
  destruct (failing_S n _ Hfailing) as (err & faults & Hfaults & Hnf & Hrest).
  pose proof (Get_queuedAlone o k (commandQueue s) Halone) as Hget.
  set (w1 := workqueue.mk _ _ _ _ _ _) in Hget.
  set (s1 := emit (EvGet TheCommandQueue (Some o)) (setWorkQueue TheCommandQueue w1 s)).
  pose proof (Commands_Delete_fault (Command.Namespace (deref cmd))
                (Command.Name (deref cmd)) s1 err faults Hfaults) as Hdel.
  pose proof (handleCommand_delete_failed c cmd s1 err _ Hdel) as Hhandle.
  rewrite Hnf in Hhandle.
  eexists _, w1, _. split; [exact Hget|].
  split; [by destruct Halone as (_ & _ & _ & _ & Hnum)|].
  split; [exact (processNextCommand_eq _ _ _ s cmd w1 _ _ Hget Hhandle)|].
  split.
  { eexists _, _. split; [simpl; repeat (rewrite <- app_assoc; simpl); reflexivity|]. done. }
  done.
Qed.

Lemma commandAttempt_retries k s n :
  queuedAlone o k (commandQueue s) →
  failing (S n) (apiFaults s) →
  (k < maxRetries)%nat →
  ∃ calls s',
    commandAttempt c o s = (Return true, s') ∧
    trace s' = trace s ++ calls ∧
    queuedAlone o (S k) (commandQueue s') ∧
    failing n (apiFaults s') ∧
    queue s' = queue s ∧ commands s' = commands s ∧
    count isAddRateLimited calls = 1 ∧
    count isForget calls = 0 ∧
    count isRecordEvent calls = 0 ∧
    count isAdd calls = 0.
Proof.
  intros Halone Hfailing Hlt.
  destruct (failed_deletion_round k s n Halone Hfailing)
    as (err & w1 & s2 & Hget & Hnum1 & Hrun & (deleted & finished & Htrace & Hkinds)
        & Hcq & Hq & Hcommands & Hrest).
  unfold commandAttempt, mbind, M_bind. rewrite Hrun.
  unfold defer, mbind, M_bind, mret, M_ret.
  rewrite handleCommandErr_retry.
  2:{ by rewrite Hcq, Hnum1. }
  unfold Done, delayPasses. simpl. rewrite Hcq.
  eexists _, _. split; [reflexivity|]. simpl.
  split; [rewrite Htrace; repeat (rewrite <- app_assoc; simpl); reflexivity|].
  split; [by eapply retry_round|].
  destruct Hkinds as (? & ? & ? & ? & ? & ? & ? & ?).
  repeat (split; [done|]). unfold count. simpl.
  repeat match goal with H : _ = false |- _ => rewrite H; clear H end. done.
Qed.

Lemma commandAttempt_drops k s n :
  queuedAlone o k (commandQueue s) →
  failing (S n) (apiFaults s) →
  (maxRetries ≤ k)%nat →
  ∃ calls s',
    commandAttempt c o s = (Return true, s') ∧
    trace s' = trace s ++ calls ∧
    dropped o (commandQueue s') ∧
    queue s' = queue s ∧ commands s' = commands s ∧
    count isAddRateLimited calls = 0 ∧
    count isForget calls = 1 ∧
    count isRecordEvent calls = 0 ∧
    count isAdd calls = 0.
Proof.
  intros Halone Hfailing Hge.
  destruct (failed_deletion_round k s n Halone Hfailing)
    as (err & w1 & s2 & Hget & Hnum1 & Hrun & (deleted & finished & Htrace & Hkinds)
        & Hcq & Hq & Hcommands & Hrest).
  unfold commandAttempt, mbind, M_bind. rewrite Hrun.
  unfold defer, mbind, M_bind, mret, M_ret.
  rewrite handleCommandErr_drop.
  2:{ by rewrite Hcq, Hnum1. }
  unfold Done, delayPasses. simpl. rewrite Hcq.
  eexists _, _. split; [reflexivity|]. simpl.
  split; [rewrite Htrace; repeat (rewrite <- app_assoc; simpl); reflexivity|].
  split; [by eapply drop_round|].
  destruct Hkinds as (? & ? & ? & ? & ? & ? & ? & ?).
  repeat (split; [done|]). unfold count. simpl.
  repeat match goal with H : _ = false |- _ => rewrite H; clear H end. done.
Qed.

Lemma commandAttempts_to_the_drop n k s :
  queuedAlone o k (commandQueue s) →
  (k + n = maxRetries)%nat →
  failing (S n) (apiFaults s) →
  ∃ calls s',
    commandAttempts (S n) c o s = (Return (), s') ∧
    trace s' = trace s ++ calls ∧
    dropped o (commandQueue s') ∧
    queue s' = queue s ∧ commands s' = commands s ∧
    count isAddRateLimited calls = n ∧
    count isForget calls = 1 ∧
    count isRecordEvent calls = 0 ∧
    count isAdd calls = 0.
Proof.
  revert k s. induction n as [|n IH]; intros k s Halone Hk Hfailing.
  - destruct (commandAttempt_drops k s 0 Halone Hfailing ltac:(lia))
      as (calls & s' & Hrun & Hrest).
    exists calls, s'. simpl. unfold mbind, M_bind. rewrite Hrun. done.
  - destruct (commandAttempt_retries k s (S n) Halone Hfailing ltac:(lia))
      as (calls1 & s1 & Hrun1 & Htrace1 & Halone1 & Hfailing1 & Hq1 & Hc1
          & Hadd1 & Hforget1 & Hrec1 & Henq1).
    destruct (IH (S k) s1 Halone1 ltac:(lia) Hfailing1)
      as (calls2 & s2 & Hrun2 & Htrace2 & Hdropped & Hq2 & Hc2
          & Hadd2 & Hforget2 & Hrec2 & Henq2).
    exists (calls1 ++ calls2), s2.
    change (commandAttempts (S (S n)) c o s)
      with ((commandAttempt c o;; commandAttempts (S n) c o) s).
    unfold mbind at 1. unfold M_bind at 1. rewrite Hrun1, Hrun2.
    split; [done|]. split; [by rewrite Htrace2, Htrace1, app_assoc|].
    split; [done|]. split; [by rewrite Hq2|]. split; [by rewrite Hc2|].
    rewrite !count_app. lia.
Qed.

End FailingDeletion.

(** X1. In any world, whatever else is queued, [handleCommandErr] decides
    on the item's requeue count alone: below [maxRetries] it puts the item
    back rate-limited on the command queue, from [maxRetries] on it forgets
    it, and it records no event and touches nothing else.  So for an item
    whose count is zero and whose handling keeps failing, whatever happens
    between the failures that leaves its count alone, the first [k] ≤
    [maxRetries] failures put it back [k] times and the next one drops it.
    In the command worker, for a command that is the one item queued and
    whose deletion keeps failing with errors other than not found: after
    [maxRetries] + 1 attempts it was put back [maxRetries] times and forgotten
    once, no event was recorded, nothing was added to the queue-request
    queue, the command is still in the cluster, and the next [Get] waits. *)
Theorem always_failing_command_is_retried_maxRetries_times
    queueSynced pgSynced cmdSynced cmd :
  let c := NewQueueController queueSynced pgSynced cmdSynced in
  let o := ObjCommand cmd in
  (∀ item err s,
     handleCommandErr (Some err) item s =
       if decide (workqueue.NumRequeues item (commandQueue s) < maxRetries)%nat then
         (Return (),
          appendTrace
            [EvKlog (SevInfo 4) "Error syncing command %v for %v." [VObj item; VError err];
             EvAddRateLimited TheCommandQueue item]
            (setWorkQueue TheCommandQueue
               (workqueue.AddRateLimited item (commandQueue s)) s))
       else
         (Return (),
          appendTrace
            [EvKlog (SevInfo 2) "Dropping command %v out of the queue for %v."
                    [VObj item; VError err];
             EvForget TheCommandQueue item]
            (setWorkQueue TheCommandQueue (workqueue.Forget item (commandQueue s)) s))) ∧
  (∀ item between errs s,
     workqueue.NumRequeues item (commandQueue s) = 0 →
     (∀ i s1, workqueue.NumRequeues item (commandQueue (between i s1))
              = workqueue.NumRequeues item (commandQueue s1)) →
     (∀ k, (k ≤ maxRetries)%nat →
        count isAddRateLimited
          (fst (failuresInARow handleCommandErr between errs item k s)) = k ∧
        count isForget (fst (failuresInARow handleCommandErr between errs item k s)) = 0 ∧
        count isRecordEvent
          (fst (failuresInARow handleCommandErr between errs item k s)) = 0 ∧
        workqueue.NumRequeues item
          (commandQueue (snd (failuresInARow handleCommandErr between errs item k s))) = k) ∧
     count isAddRateLimited
       (fst (failuresInARow handleCommandErr between errs item (S maxRetries) s))
       = maxRetries ∧
     count isForget
       (fst (failuresInARow handleCommandErr between errs item (S maxRetries) s)) = 1 ∧
     count isRecordEvent
       (fst (failuresInARow handleCommandErr between errs item (S maxRetries) s)) = 0 ∧
     workqueue.NumRequeues item
       (commandQueue (snd (failuresInARow handleCommandErr between errs item
                             (S maxRetries) s))) = 0) ∧
  (∀ s,
     queuedAlone o 0 (commandQueue s) →
     failing (S maxRetries) (apiFaults s) →
     ∃ calls s',
       commandAttempts (S maxRetries) c o s = (Return (), s') ∧
       trace s' = trace s ++ calls ∧
       dropped o (commandQueue s') ∧
       queue s' = queue s ∧
       commands s' = commands s ∧
       count isAddRateLimited calls = maxRetries ∧
       count isForget calls = 1 ∧
       count isRecordEvent calls = 0 ∧
       count isAdd calls = 0 ∧
       processNextCommand c s' = (Blocked, s')).
Proof.
  intros c o.
  split; [intros item err s; apply handleCommandErr_decides|].
  split.
  - intros item between errs s Hfresh Hbetween.
    apply (failuresInARow_counts handleCommandErr TheCommandQueue item 0); try done.
    + intros err s1 Hlt. eexists. split; [by apply handleCommandErr_retry|done].
    + intros err s1 Hge. eexists. split; [by apply handleCommandErr_drop|done].
  - intros s Halone Hfailing.
    destruct (commandAttempts_to_the_drop queueSynced pgSynced cmdSynced cmd
                maxRetries 0 s Halone eq_refl Hfailing)
      as (calls & s' & Hrun & Htrace & Hdropped & Hq & Hc & Hcounts).
    exists calls, s'. repeat (split; [done|]).
    destruct Hcounts as (? & ? & ? & ?). repeat (split; [done|]).
    apply (processNext_blocked c TheCommandQueue). simpl.
    destruct Hdropped as (Hempty & _ & Hsd & _). unfold workqueue.Get.
    by rewrite Hempty, Hsd.
Qed.

End Properties.

(** * The statements on the scenario *)

Lemma Get_enqueued o :
  workqueue.Get (Scenario.enqueued o)
    = Some (Some o, Scenario.taken o (Scenario.enqueued o)).
Proof. apply (Get_queuedAlone o 0), queuedAlone_fresh. Qed.

Lemma NumRequeues_exhausted o :
  workqueue.NumRequeues o (Scenario.exhausted o) = maxRetries.
Proof.
  unfold workqueue.NumRequeues, Scenario.exhausted. cbn [workqueue.failures].
  by rewrite lookup_singleton_eq.
Qed.

Lemma NumRequeues_enqueued o :
  workqueue.NumRequeues o (Scenario.enqueued o) = 0.
Proof. apply queuedAlone_fresh. Qed.

Lemma NumRequeues_Add o item w :
  workqueue.NumRequeues o (workqueue.Add item w) = workqueue.NumRequeues o w.
Proof. unfold workqueue.Add. by repeat case_match. Qed.

(** As long as the lister answers as in the scenario, handling the request
    for the queue flaky fails. *)
Lemma flaky_always_fails s :
  queueLister s = queueLister (Scenario.requested Scenario.flaky) →
  fst (handleQueue QueueState Scenario.NewState Scenario.Execute Scenario.flaky s)
    ≠ Return None.
Proof.
  intros Hlister.
  rewrite (handleQueue_lookup_error _ _ _ Scenario.flaky s Scenario.timeout);
    [done|by rewrite Hlister|done].
Qed.

(** C10 on the scenario: a command found on the queue-request queue. *)
Lemma wrong_type_item_is_logged_and_done_witness :
  workqueue.Get (workQueue TheQueue Scenario.misplaced)
    = Some (Some (ObjCommand Scenario.command),
            Scenario.taken (ObjCommand Scenario.command)
              (Scenario.enqueued (ObjCommand Scenario.command))) ∧
  expectedType TheQueue (ObjCommand Scenario.command) = false ∧
  processNext TheQueue Scenario.controller Scenario.misplaced =
    (Return true,
     appendTrace
       [EvGet TheQueue (Some (ObjCommand Scenario.command));
        EvKlog SevError (notValidFormat TheQueue) [VObj (ObjCommand Scenario.command)];
        EvDone TheQueue (ObjCommand Scenario.command)]
       (setWorkQueue TheQueue
          (workqueue.Done (ObjCommand Scenario.command)
             (Scenario.taken (ObjCommand Scenario.command)
                (Scenario.enqueued (ObjCommand Scenario.command))))
          Scenario.misplaced)).
Proof.
  split; [exact (Get_enqueued (ObjCommand Scenario.command))|].
  split; [reflexivity|].
  exact (proj1 (wrong_type_item_is_logged_and_done Scenario.controller TheQueue
                  Scenario.misplaced (ObjCommand Scenario.command)
                  (Scenario.taken (ObjCommand Scenario.command)
                     (Scenario.enqueued (ObjCommand Scenario.command)))
                  (Get_enqueued (ObjCommand Scenario.command)) eq_refl)).
Defined.

(** C3 on the scenario: a request for a queue that is gone. *)
Lemma not_found_is_success_and_forgotten_witness :
  queueLister (Scenario.requested Scenario.gone) (QueueRequest.Name (deref Scenario.gone))
    = inr (StatusError apierrors.StatusReasonNotFound "queue not found") ∧
  fst (handleQueue QueueState Scenario.NewState Scenario.Execute Scenario.gone
         (Scenario.requested Scenario.gone)) = Return None ∧
  workqueue.NumRequeues (ObjQueueRequest Scenario.gone)
    (queue (snd (processNextWorkItem Scenario.controller (Scenario.requested Scenario.gone))))
    = 0.
Proof.
  split; [reflexivity|].
  pose proof (not_found_is_success_and_forgotten QueueState Scenario.NewState Scenario.Execute
                (Scenario.syncedFrom 1) (Scenario.syncedFrom 2) (Scenario.syncedFrom 3)
                (Scenario.requested Scenario.gone) Scenario.gone
                (StatusError apierrors.StatusReasonNotFound "queue not found")
                (Scenario.taken (ObjQueueRequest Scenario.gone)
                   (Scenario.enqueued (ObjQueueRequest Scenario.gone)))
                eq_refl eq_refl (Get_enqueued (ObjQueueRequest Scenario.gone)))
    as (Hnil & _ & _ & Hcount & _).
  split; [exact Hnil|exact Hcount].
Defined.

(** C6 on the scenario: a request for the queue that declares the state
    Paused, which the state machine does not know. *)
Lemma invalid_state_is_retried_like_any_error_witness :
  queueLister (Scenario.requested Scenario.paused) (QueueRequest.Name (deref Scenario.paused))
    = inl (Queue.mk "paused" "Paused") ∧
  Scenario.NewState (Queue.mk "paused" "Paused") = None ∧
  handleQueue QueueState Scenario.NewState Scenario.Execute Scenario.paused
      (Scenario.requested Scenario.paused) =
    (Return (Some (errorString
       ("queue " +:+ Queue.Name (Queue.mk "paused" "Paused") +:+ " state "
          +:+ Queue.Status_State (Queue.mk "paused" "Paused") +:+ " is invalid"))),
     appendTrace
       [EvKlog (SevInfo 4) "Finished syncing queue %s (%v)."
               [VString (QueueRequest.Name (deref Scenario.paused))]]
       (Scenario.requested Scenario.paused)).
Proof.
  split; [reflexivity|]. split; [reflexivity|].
  exact (proj1 (invalid_state_is_retried_like_any_error QueueState Scenario.NewState
                  Scenario.Execute
                  (Scenario.syncedFrom 1) (Scenario.syncedFrom 2) (Scenario.syncedFrom 3)
                  (Scenario.requested Scenario.paused) Scenario.paused
                  (Queue.mk "paused" "Paused")
                  (Scenario.taken (ObjQueueRequest Scenario.paused)
                     (Scenario.enqueued (ObjQueueRequest Scenario.paused)))
                  Scenario.timeout
                  eq_refl eq_refl (Get_enqueued (ObjQueueRequest Scenario.paused)))).
Defined.

(** C4 on the scenario: the request for the queue flaky fails sixteen times
    in a row while another request arrives after each failure; and alone on
    the queue it is attempted sixteen times by the worker. *)
Lemma always_failing_request_is_retried_maxRetries_times_witness :
  (count isAddRateLimited
     (fst (failuresInARow handleQueueErr
             (λ _ s1, setWorkQueue TheQueue
                        (workqueue.Add (ObjQueueRequest Scenario.gone) (queue s1)) s1)
             (λ _, Scenario.timeout) (ObjQueueRequest Scenario.flaky) (S maxRetries)
             (Scenario.requested Scenario.flaky))) = maxRetries ∧
   count isForget
     (fst (failuresInARow handleQueueErr
             (λ _ s1, setWorkQueue TheQueue
                        (workqueue.Add (ObjQueueRequest Scenario.gone) (queue s1)) s1)
             (λ _, Scenario.timeout) (ObjQueueRequest Scenario.flaky) (S maxRetries)
             (Scenario.requested Scenario.flaky))) = 1 ∧
   count isRecordEvent
     (fst (failuresInARow handleQueueErr
             (λ _ s1, setWorkQueue TheQueue
                        (workqueue.Add (ObjQueueRequest Scenario.gone) (queue s1)) s1)
             (λ _, Scenario.timeout) (ObjQueueRequest Scenario.flaky) (S maxRetries)
             (Scenario.requested Scenario.flaky))) = 1) ∧
  ∃ calls s',
    attempts (S maxRetries) Scenario.controller (ObjQueueRequest Scenario.flaky)
      (Scenario.requested Scenario.flaky) = (Return (), s') ∧
    trace s' = trace (Scenario.requested Scenario.flaky) ++ calls ∧
    dropped (ObjQueueRequest Scenario.flaky) (queue s') ∧
    count isAddRateLimited calls = maxRetries ∧
    count isForget calls = 1 ∧
    count isRecordEvent calls = 1 ∧
    processNextWorkItem Scenario.controller s' = (Blocked, s') ∧
    ∀ n, attempts (S n) Scenario.controller (ObjQueueRequest Scenario.flaky) s'
         = (Blocked, s').
Proof.
  destruct (always_failing_request_is_retried_maxRetries_times QueueState
              Scenario.NewState Scenario.Execute
              (Scenario.syncedFrom 1) (Scenario.syncedFrom 2) (Scenario.syncedFrom 3)
              Scenario.flaky) as (_ & _ & _ & Hrow & Hworker).
  split.
  - destruct (Hrow (λ _ s1, setWorkQueue TheQueue
                              (workqueue.Add (ObjQueueRequest Scenario.gone) (queue s1)) s1)
                   (λ _, Scenario.timeout) (Scenario.requested Scenario.flaky))
      as (_ & Hadd & Hforget & Hrec & _);
      [exact (NumRequeues_enqueued (ObjQueueRequest Scenario.flaky))
      |exact (λ _ s1, NumRequeues_Add _ _ (queue s1))
      |exact (conj Hadd (conj Hforget Hrec))].
  - apply (Hworker (Scenario.requested Scenario.flaky)).
    + apply queuedAlone_fresh.
    + apply flaky_always_fails.
Defined.


(** C1 on the scenario: a request that has been put back [maxRetries] times
    in a world whose command queue is new, and a command that has been put
    back [maxRetries] times in another world. *)
Lemma drop_records_event_for_requests_only_witness :
  ((maxRetries ≤ workqueue.NumRequeues (ObjQueueRequest Scenario.flaky)
                   (queue Scenario.wornRequest))%nat ∧
   handleQueueErr (Some Scenario.timeout) (ObjQueueRequest Scenario.flaky)
     Scenario.wornRequest =
     (Return (),
      appendTrace
        [EvRecordEventsForQueue (QueueRequest.Name (deref Scenario.flaky)) "Warning"
           (QueueRequest.Action (deref Scenario.flaky))
           (QueueRequest.Action (deref Scenario.flaky) +:+ " queue failed for "
              +:+ Error Scenario.timeout);
         EvKlog (SevInfo 2) "Dropping queue request %v out of the queue for %v."
                [VObj (ObjQueueRequest Scenario.flaky); VError Scenario.timeout];
         EvForget TheQueue (ObjQueueRequest Scenario.flaky)]
        (setWorkQueue TheQueue
           (workqueue.Forget (ObjQueueRequest Scenario.flaky) (queue Scenario.wornRequest))
           Scenario.wornRequest))) ∧
  ((maxRetries ≤ workqueue.NumRequeues (ObjCommand Scenario.command)
                   (commandQueue Scenario.worn))%nat ∧
   handleCommandErr (Some Scenario.timeout) (ObjCommand Scenario.command) Scenario.worn =
     (Return (),
      appendTrace
        [EvKlog (SevInfo 2) "Dropping command %v out of the queue for %v."
                [VObj (ObjCommand Scenario.command); VError Scenario.timeout];
         EvForget TheCommandQueue (ObjCommand Scenario.command)]
        (setWorkQueue TheCommandQueue
           (workqueue.Forget (ObjCommand Scenario.command) (commandQueue Scenario.worn))
           Scenario.worn))).
Proof.
  assert (maxRetries ≤ workqueue.NumRequeues (ObjQueueRequest Scenario.flaky)
                         (queue Scenario.wornRequest))%nat as Hreq.
  { change (queue Scenario.wornRequest)
      with (Scenario.exhausted (ObjQueueRequest Scenario.flaky)).
    by rewrite NumRequeues_exhausted. }
  assert (maxRetries ≤ workqueue.NumRequeues (ObjCommand Scenario.command)
                         (commandQueue Scenario.worn))%nat as Hcmd.
  { change (commandQueue Scenario.worn) with (Scenario.exhausted (ObjCommand Scenario.command)).
    by rewrite NumRequeues_exhausted. }
  destruct drop_records_event_for_requests_only as [Hrequests Hcommands].
  split.
  - split; [exact Hreq|].
    exact (proj1 (Hrequests Scenario.flaky Scenario.timeout Scenario.wornRequest Hreq)).
  - split; [exact Hcmd|].
    exact (proj1 (Hcommands (ObjCommand Scenario.command) Scenario.timeout Scenario.worn Hcmd)).
Defined.

(** C1 as stated fails for the command worker: the command has been put back
    [maxRetries] times and its deletion fails again; [handleCommandErr] logs
    the drop and forgets the command, and records no event. *)
Lemma command_drop_records_no_event :
  workqueue.NumRequeues (ObjCommand Scenario.command) (commandQueue Scenario.worn)
    = maxRetries ∧
  trace (snd (handleCommandErr (Some Scenario.timeout) (ObjCommand Scenario.command)
                Scenario.worn)) =
    [EvKlog (SevInfo 2) "Dropping command %v out of the queue for %v."
            [VObj (ObjCommand Scenario.command); VError Scenario.timeout];
     EvForget TheCommandQueue (ObjCommand Scenario.command)] ∧
  ¬ ∃ name eventType reason message,
      EvRecordEventsForQueue name eventType reason message
        ∈ trace (snd (handleCommandErr (Some Scenario.timeout)
                        (ObjCommand Scenario.command) Scenario.worn)).
Proof.
  assert (workqueue.NumRequeues (ObjCommand Scenario.command) (commandQueue Scenario.worn)
            = maxRetries) as Hnum.
  { change (commandQueue Scenario.worn) with (Scenario.exhausted (ObjCommand Scenario.command)).
    apply NumRequeues_exhausted. }
  split; [exact Hnum|].
  rewrite (handleCommandErr_drop Scenario.timeout (ObjCommand Scenario.command) Scenario.worn)
    by (rewrite Hnum; done).
  cbn [snd]. rewrite trace_appendTrace.
  change (trace (setWorkQueue TheCommandQueue _ Scenario.worn)) with (@nil Effect).
  cbn [app]. split; [reflexivity|].
  intros (name & eventType & reason & message & Hin).
  apply elem_of_cons in Hin as [Hin|Hin]; [discriminate|].
  apply elem_of_cons in Hin as [Hin|Hin]; [discriminate|].
  by apply elem_of_nil in Hin.
Qed.

(** C7 as stated fails for a lookup error: the lookup of the queue flaky times
    out, and the error [handleQueue] returns names the queue and the cause
    but not the action, CloseQueue. *)
Lemma lookup_error_does_not_carry_the_action :
  queueLister (Scenario.requested Scenario.flaky) (QueueRequest.Name (deref Scenario.flaky))
    = inr Scenario.timeout ∧
  QueueRequest.Action (deref Scenario.flaky) = "CloseQueue" ∧
  fst (handleQueue QueueState Scenario.NewState Scenario.Execute Scenario.flaky
         (Scenario.requested Scenario.flaky))
    = Return (Some (errorString "get queue flaky failed for request timed out")) ∧
  Contains "get queue flaky failed for request timed out"
           (QueueRequest.Action (deref Scenario.flaky)) = false.
Proof.
  split; [reflexivity|]. split; [reflexivity|]. split.
  - rewrite (handleQueue_lookup_error _ _ _ Scenario.flaky
               (Scenario.requested Scenario.flaky) Scenario.timeout) by reflexivity.
    reflexivity.
  - vm_compute. reflexivity.
Qed.

(** The filter admits the command that targets a queue, and neither a command
    that targets a job nor a queue request. *)
Example filter_on_the_scenario :
  FilterFunc (cmdEventHandler Scenario.IsQueueReference) (ObjCommand Scenario.command) = true ∧
  FilterFunc (cmdEventHandler Scenario.IsQueueReference)
    (ObjCommand (Ptr 3 (Command.mk "batch" "abort-job" "AbortJob"
                          (Some (OwnerReference.mk "batch.volcano.sh/v1alpha1" "Job" "j1")))))
    = false ∧
  FilterFunc (cmdEventHandler Scenario.IsQueueReference)
    (ObjCommand (Ptr 4 (Command.mk "batch" "no-target" "CloseQueue" None))) = false ∧
  FilterFunc (cmdEventHandler Scenario.IsQueueReference) (ObjQueueRequest Scenario.gone) = false.
Proof. repeat split; reflexivity. Qed.

(** The caches of the scenario have all synced from time 3 on: stopped at
    time 10 the controller starts its workers at time 3, stopped at time 3 it
    starts none. *)
Example Run_on_the_scenario :
  List.filter isWorkerStart (trace (snd (Run Scenario.controller 10 Scenario.commanded)))
    = [EvGo UntilWorker 3; EvGo UntilCommandWorker 3] ∧
  List.filter isWorkerStart (trace (snd (Run Scenario.controller 3 Scenario.commanded))) = [].
Proof. split; reflexivity. Qed.

(** * The further statements on the scenario *)

Lemma failing_replicate n err :
  IsNotFound err = false → failing n (replicate n (Some err)).
Proof.
  intros Hnf i Hi. exists err. split; [|done]. by apply lookup_replicate_2.
Qed.

Lemma command_exists :
  (Command.Namespace (deref Scenario.command), Command.Name (deref Scenario.command))
    ∈ commands Scenario.commanded.
Proof.
  change (("batch", "close-default") ∈ ({[("batch", "close-default")]} : gset (string * string))).
  by apply elem_of_singleton.
Qed.

Lemma wellFormed_stopped : wellFormed (queue Scenario.stopped).
Proof.
  change (queue Scenario.stopped)
    with (workqueue.ShutDown (Scenario.enqueued (ObjQueueRequest Scenario.gone))).
  destruct (queuedAlone_fresh (ObjQueueRequest Scenario.gone)) as (Hq & _).
  unfold Scenario.enqueued, wellFormed, workqueue.ShutDown. simpl. rewrite Hq.
  split; [apply NoDup_singleton|].
  intros item ->%list_elem_of_singleton.
  unfold workqueue.Add. simpl.
  rewrite decide_False by set_solver. rewrite decide_False by set_solver.
  simpl. set_solver.
Qed.

(** X1 on the scenario: handling the command fails sixteen times in a row
    while another command arrives after each failure; and alone on the queue,
    its deletion times out sixteen times. *)
Lemma always_failing_command_is_retried_maxRetries_times_witness :
  (count isAddRateLimited
     (fst (failuresInARow handleCommandErr
             (λ _ s1, setWorkQueue TheCommandQueue
                        (workqueue.Add (ObjOther "another command") (commandQueue s1)) s1)
             (λ _, Scenario.timeout) (ObjCommand Scenario.command) (S maxRetries)
             Scenario.stuck)) = maxRetries ∧
   count isForget
     (fst (failuresInARow handleCommandErr
             (λ _ s1, setWorkQueue TheCommandQueue
                        (workqueue.Add (ObjOther "another command") (commandQueue s1)) s1)
             (λ _, Scenario.timeout) (ObjCommand Scenario.command) (S maxRetries)
             Scenario.stuck)) = 1 ∧
   count isRecordEvent
     (fst (failuresInARow handleCommandErr
             (λ _ s1, setWorkQueue TheCommandQueue
                        (workqueue.Add (ObjOther "another command") (commandQueue s1)) s1)
             (λ _, Scenario.timeout) (ObjCommand Scenario.command) (S maxRetries)
             Scenario.stuck)) = 0) ∧
  queuedAlone (ObjCommand Scenario.command) 0 (commandQueue Scenario.stuck) ∧
  failing (S maxRetries) (apiFaults Scenario.stuck) ∧
  ∃ calls s',
    commandAttempts (S maxRetries) Scenario.controller (ObjCommand Scenario.command)
      Scenario.stuck = (Return (), s') ∧
    trace s' = trace Scenario.stuck ++ calls ∧
    dropped (ObjCommand Scenario.command) (commandQueue s') ∧
    queue s' = queue Scenario.stuck ∧
    commands s' = commands Scenario.stuck ∧
    count isAddRateLimited calls = maxRetries ∧
    count isForget calls = 1 ∧
    count isRecordEvent calls = 0 ∧
    count isAdd calls = 0 ∧
    processNextCommand Scenario.controller s' = (Blocked, s').
Proof.
  destruct (always_failing_command_is_retried_maxRetries_times QueueState Scenario.NewState
              Scenario.Execute
              (Scenario.syncedFrom 1) (Scenario.syncedFrom 2) (Scenario.syncedFrom 3)
              Scenario.command) as (_ & Hrow & Hworker).
  split.
  - destruct (Hrow (ObjCommand Scenario.command)
                   (λ _ s1, setWorkQueue TheCommandQueue
                              (workqueue.Add (ObjOther "another command") (commandQueue s1))
                              s1)
                   (λ _, Scenario.timeout) Scenario.stuck)
      as (_ & Hadd & Hforget & Hrec & _);
      [exact (NumRequeues_enqueued (ObjCommand Scenario.command))
      |exact (λ _ s1, NumRequeues_Add _ _ (commandQueue s1))
      |exact (conj Hadd (conj Hforget Hrec))].
  - split; [exact (queuedAlone_fresh (ObjCommand Scenario.command))|].
    split; [exact (failing_replicate (S maxRetries) Scenario.timeout eq_refl)|].
    exact (Hworker Scenario.stuck (queuedAlone_fresh (ObjCommand Scenario.command))
             (failing_replicate (S maxRetries) Scenario.timeout eq_refl)).
Defined.

(** X3 on the scenario: the command without target. *)
Lemma nil_target_command_is_deleted_then_panics_witness :
  workqueue.Get (commandQueue Scenario.misdirected)
    = Some (Some (ObjCommand Scenario.untargeted),
            Scenario.taken (ObjCommand Scenario.untargeted)
              (Scenario.enqueued (ObjCommand Scenario.untargeted))) ∧
  ∃ s',
    processNextCommand Scenario.controller Scenario.misdirected
      = (Panic nilDereference, s') ∧
    trace s' = trace Scenario.misdirected ++
      [EvGet TheCommandQueue (Some (ObjCommand Scenario.untargeted));
       EvDelete "batch" "close-default" None;
       EvKlog (SevInfo 4) "Finished syncing command %s/%s (%v)."
              [VString "batch"; VString "close-default"];
       EvDone TheCommandQueue (ObjCommand Scenario.untargeted)] ∧
    commands s' = commands Scenario.misdirected ∖ {[("batch", "close-default")]} ∧
    queue s' = queue Scenario.misdirected ∧
    commandQueue s' = workqueue.Done (ObjCommand Scenario.untargeted)
                        (Scenario.taken (ObjCommand Scenario.untargeted)
                           (Scenario.enqueued (ObjCommand Scenario.untargeted))).
Proof.
  split; [exact (Get_enqueued (ObjCommand Scenario.untargeted))|].
  exact (proj1 (nil_target_command_is_deleted_then_panics QueueState Scenario.NewState
                  Scenario.Execute
                  (Scenario.syncedFrom 1) (Scenario.syncedFrom 2) (Scenario.syncedFrom 3)
                  Scenario.untargeted Scenario.misdirected
                  (Scenario.taken (ObjCommand Scenario.untargeted)
                     (Scenario.enqueued (ObjCommand Scenario.untargeted)))
                  (Get_enqueued (ObjCommand Scenario.untargeted)) eq_refl eq_refl
                  command_exists)).
Defined.

(** X2 on the scenario: the request for the open queue, which had failed
    [maxRetries] times before, with a state machine that succeeds. *)
Lemma success_resets_the_requeue_count_witness :
  workqueue.NumRequeues (ObjQueueRequest Scenario.wanted)
    (Scenario.exhausted (ObjQueueRequest Scenario.wanted)) = maxRetries ∧
  workqueue.NumRequeues (ObjQueueRequest Scenario.wanted)
    (queue (snd (processNextWorkItem
                   (NewQueueController QueueState Scenario.NewState Scenario.Succeeds
                      (Scenario.syncedFrom 1) (Scenario.syncedFrom 2) (Scenario.syncedFrom 3))
                   (Scenario.world (Scenario.exhausted (ObjQueueRequest Scenario.wanted))
                      workqueue.NewRateLimitingQueue [])))) = 0.
Proof.
  split; [apply NumRequeues_exhausted|].
  exact (proj2 (success_resets_the_requeue_count QueueState Scenario.NewState Scenario.Succeeds
                  (Scenario.syncedFrom 1) (Scenario.syncedFrom 2) (Scenario.syncedFrom 3)
                  (Scenario.world (Scenario.exhausted (ObjQueueRequest Scenario.wanted))
                     workqueue.NewRateLimitingQueue [])
                  Scenario.wanted (Queue.mk "default" "Open") "Open"
                  (Scenario.taken (ObjQueueRequest Scenario.wanted)
                     (Scenario.exhausted (ObjQueueRequest Scenario.wanted)))
                  eq_refl eq_refl (λ _, eq_refl) eq_refl)).
Defined.

(** X4 on the scenario: the command that closes the queue default. *)
Lemma admitted_command_is_handled_without_panic_witness :
  Scenario.IsQueueReference None = false ∧
  FilterFunc (cmdEventHandler Scenario.IsQueueReference) (ObjCommand Scenario.command) = true ∧
  (∃ target, Command.TargetObject (deref Scenario.command) = Some target) ∧
  ∃ result,
    fst (handleCommand Scenario.controller Scenario.command Scenario.commanded) = Return result.
Proof.
  split; [reflexivity|]. split; [reflexivity|].
  exact (admitted_command_is_handled_without_panic Scenario.IsQueueReference
           Scenario.controller Scenario.command Scenario.commanded eq_refl eq_refl eq_refl).
Defined.

(** X5 on the scenario: one request is queued when the queue is shut down. *)
Lemma worker_drains_after_shutdown_witness :
  workqueue.shuttingDown (queue Scenario.stopped) = true ∧
  ∃ calls s',
    worker (S (length (workqueue.queue (queue Scenario.stopped)))) Scenario.controller
      Scenario.stopped = (Return (Some ()), s') ∧
    trace s' = trace Scenario.stopped ++ calls ∧
    workqueue.queue (queue s') = [] ∧
    getCalls calls
      = map (λ o, EvGet TheQueue (Some o)) (workqueue.queue (queue Scenario.stopped))
          ++ [EvGet TheQueue None] ∧
    doneCalls calls = map (EvDone TheQueue) (workqueue.queue (queue Scenario.stopped)) ∧
    workqueue.processing (queue s')
      = workqueue.processing (queue Scenario.stopped)
          ∖ list_to_set (workqueue.queue (queue Scenario.stopped)) ∧
    last calls = Some (EvGet TheQueue None).
Proof.
  split; [reflexivity|].
  exact (worker_drains_after_shutdown QueueState Scenario.NewState Scenario.Execute
           (Scenario.syncedFrom 1) (Scenario.syncedFrom 2) (Scenario.syncedFrom 3)
           Scenario.stopped eq_refl wellFormed_stopped).
Defined.

Lemma workers_never_reopen : neverReopens Scenario.workersGoRound.
Proof.
  intros i q s1 Hdown.
  destruct (keeps_goroutines QueueState Scenario.NewState Scenario.Execute
              Scenario.IsQueueReference
              (Scenario.syncedFrom 1) (Scenario.syncedFrom 2) (Scenario.syncedFrom 3))
    as (Hworker & Hcommands & _).
  unfold keeps in Hworker, Hcommands. fold Scenario.controller in Hworker, Hcommands.
  unfold Scenario.workersGoRound. by rewrite Hcommands, Hworker.
Qed.

(** X6 on the scenario: [Run], stopped at time 10, with the command enqueued
    and both workers going round their loops in between. *)
Lemma Run_leaves_both_queues_shut_down_witness :
  neverReopens Scenario.workersGoRound ∧
  fst (RunAmong Scenario.workersGoRound Scenario.controller 10 Scenario.commanded)
    = Return () ∧
  workqueue.shuttingDown
    (queue (snd (RunAmong Scenario.workersGoRound Scenario.controller 10
                   Scenario.commanded))) = true ∧
  workqueue.shuttingDown
    (commandQueue (snd (RunAmong Scenario.workersGoRound Scenario.controller 10
                          Scenario.commanded))) = true.
Proof.
  split; [exact workers_never_reopen|].
  destruct (Run_leaves_both_queues_shut_down QueueState Scenario.NewState Scenario.Execute
              Scenario.IsQueueReference
              Scenario.controller 10 Scenario.workersGoRound Scenario.commanded
              workers_never_reopen)
    as (Hret & Hq & Hcq & _).
  split; [exact Hret|]. split; [exact Hq|exact Hcq].
Defined.

(** X7 on the scenario: the command handled three times. *)
Lemma existing_command_is_consumed_exactly_once_witness :
  apiFaults Scenario.commanded = [] ∧
  fst (redeliver 3 Scenario.controller Scenario.command Scenario.commanded) = Return () ∧
  ((Command.Namespace (deref Scenario.command), Command.Name (deref Scenario.command))
     ∉ commands (snd (redeliver 3 Scenario.controller Scenario.command Scenario.commanded))) ∧
  count isAdd
    (drop (length (trace Scenario.commanded))
       (trace (snd (redeliver 3 Scenario.controller Scenario.command Scenario.commanded)))) = 1.
Proof.
  split; [reflexivity|].
  pose proof (existing_command_is_consumed_exactly_once Scenario.controller Scenario.command
                (OwnerReference.mk "scheduling.volcano.sh/v1alpha2" "Queue" "default")
                Scenario.commanded 2 eq_refl eq_refl eq_refl command_exists)
    as (Hret & Hgone & _ & Hcount).
  split; [exact Hret|]. split; [exact Hgone|exact Hcount].
Defined.

(** X8 on the scenario: the command that closes the queue default reaches the
    state machine of that queue. *)
Lemma command_reaches_the_state_machine_witness :
  queueLister Scenario.commanded "default" = inl (Queue.mk "default" "Open") ∧
  Scenario.NewState (Queue.mk "default" "Open") = Some "Open" ∧
  ∃ result rest,
    fst ((processNextCommand Scenario.controller;; processNextWorkItem Scenario.controller)
           Scenario.commanded) = Return true ∧
    trace (snd ((processNextCommand Scenario.controller;;
                 processNextWorkItem Scenario.controller) Scenario.commanded)) =
      trace Scenario.commanded ++
        [EvGet TheCommandQueue (Some (ObjCommand Scenario.command));
         EvDelete (Command.Namespace (deref Scenario.command))
           (Command.Name (deref Scenario.command)) None;
         EvAdd TheQueue
           (ObjQueueRequest
              (Ptr (nextAddr Scenario.commanded)
                 (QueueRequest.mk
                    (OwnerReference.Name
                       (OwnerReference.mk "scheduling.volcano.sh/v1alpha2" "Queue" "default"))
                    QueueCommandIssuedEvent (Command.Action (deref Scenario.command)))));
         EvKlog (SevInfo 4) "Finished syncing command %s/%s (%v)."
           [VString (Command.Namespace (deref Scenario.command));
            VString (Command.Name (deref Scenario.command))];
         EvForget TheCommandQueue (ObjCommand Scenario.command);
         EvDone TheCommandQueue (ObjCommand Scenario.command);
         EvGet TheQueue
           (Some (ObjQueueRequest
              (Ptr (nextAddr Scenario.commanded)
                 (QueueRequest.mk
                    (OwnerReference.Name
                       (OwnerReference.mk "scheduling.volcano.sh/v1alpha2" "Queue" "default"))
                    QueueCommandIssuedEvent (Command.Action (deref Scenario.command))))));
         EvExecute (Queue.mk "default" "Open") (Command.Action (deref Scenario.command)) result]
        ++ rest ∧
    last rest
      = Some (EvDone TheQueue
           (ObjQueueRequest
              (Ptr (nextAddr Scenario.commanded)
                 (QueueRequest.mk
                    (OwnerReference.Name
                       (OwnerReference.mk "scheduling.volcano.sh/v1alpha2" "Queue" "default"))
                    QueueCommandIssuedEvent (Command.Action (deref Scenario.command)))))).
Proof.
  split; [reflexivity|]. split; [reflexivity|].
  exact (command_reaches_the_state_machine QueueState Scenario.NewState Scenario.Execute
           (Scenario.syncedFrom 1) (Scenario.syncedFrom 2) (Scenario.syncedFrom 3)
           Scenario.commanded Scenario.command
           (OwnerReference.mk "scheduling.volcano.sh/v1alpha2" "Queue" "default")
           (Queue.mk "default" "Open") "Open"
           (Scenario.taken (ObjCommand Scenario.command)
              (Scenario.enqueued (ObjCommand Scenario.command)))
           (Get_enqueued (ObjCommand Scenario.command)) eq_refl eq_refl command_exists
           eq_refl eq_refl eq_refl).
Defined.
